(** * epub_to_txt: EPUB to plain-text conversion

    A shallow embedding of [epub_to_txt.py] and the properties of its two
    core components, the spine resolver ([iter_documents_in_order]) and the
    gap-preserving text normalizer ([clean_text_preserving_gaps]), together
    with the orchestration around them ([epub_to_txt], [convert_directory]).

    Python values are modelled as follows.
    - A [str] is the list of its Unicode code points ([list N]).
    - Item identifiers are compared and hashed only; they are [string]s and
      the [seen_ids] set is a [gset string].
    - A generator is the list of the values it yields.
    - The file system and standard output are an explicit [world] threaded
      through a small state-and-exception monad. *)

From Stdlib Require Import NArith String Ascii.
From stdpp Require Import gmap strings list sorting.

Local Open Scope N_scope.
#[local] Set Warnings "-clear-no-such-hyp".

(** ** Python strings *)

Definition char := N.
Abbreviation str := (list char).

(** Code points of an ASCII literal. *)
Fixpoint u (s : string) : str :=
  match s with
  | EmptyString => []
  | String a s' => N_of_ascii a :: u s'
  end.

Definition LF : char := 10.
Definition CR : char := 13.

(** [str.isspace] on one code point: the characters removed by
    [str.strip()] when called without argument. *)
Definition is_space (c : char) : bool :=
  ((9 <=? c) && (c <=? 13)) || ((28 <=? c) && (c <=? 32))
  || (c =? 133) || (c =? 160) || (c =? 5760)
  || ((8192 <=? c) && (c <=? 8202))
  || (c =? 8232) || (c =? 8233) || (c =? 8239) || (c =? 8287) || (c =? 12288).

(** The line boundaries recognised by [str.splitlines]:
    LF, VT, FF, CR, FS, GS, RS, NEL, LS and PS (CR LF counts as one). *)
Definition is_linebreak (c : char) : bool :=
  ((10 <=? c) && (c <=? 13)) || ((28 <=? c) && (c <=? 30))
  || (c =? 133) || (c =? 8232) || (c =? 8233).

Fixpoint dropwhile (p : char -> bool) (s : str) : str :=
  match s with
  | [] => []
  | c :: s' => if p c then dropwhile p s' else s
  end.

Definition lstrip (s : str) : str := dropwhile is_space s.
Definition rstrip (s : str) : str := rev (dropwhile is_space (rev s)).

(** [s.strip()] *)
Definition strip (s : str) : str := rstrip (lstrip s).

(** [sep.join(parts)] *)
Fixpoint join {A} (sep : list A) (parts : list (list A)) : list A :=
  match parts with
  | [] => []
  | [p] => p
  | p :: rest => p ++ sep ++ join sep rest
  end.

(** [s.splitlines()]: [cur] holds the current line, reversed. A line
    boundary closes the current line; the text after the last boundary is a
    line only when it is not empty. *)
Fixpoint splitlines_from (cur : str) (s : str) : list str :=
  match s with
  | [] => match cur with [] => [] | _ => [rev cur] end
  | c :: rest =>
      if is_linebreak c then
        match rest with
        | c' :: rest' =>
            if (c =? CR) && (c' =? LF)
            then rev cur :: splitlines_from [] rest'
            else rev cur :: splitlines_from [] rest
        | [] => [rev cur]
        end
      else splitlines_from (c :: cur) rest
  end.

Definition splitlines (s : str) : list str := splitlines_from [] s.

(** ** The EPUB package (ebooklib) *)

(** [ebooklib.ITEM_DOCUMENT]; item types are small integers. *)
Definition ITEM_DOCUMENT : nat := 9.

Record Item := mkItem {
  item_id : string;      (* item.get_id() *)
  item_type : nat;       (* item.get_type() *)
  item_content : str     (* item.get_content() *)
}.

(** A spine entry is either a bare identifier or a tuple whose first element
    is the identifier (ebooklib reads them as [(idref, linear)]). *)
Inductive spine_entry :=
  | Bare (item_id : string)
  | Composite (item_id : string) (rest : list string).

Record Book := mkBook {
  spine : list spine_entry;
  items : list Item
}.

Global Instance Item_eq_dec : EqDecision Item.
Proof. solve_decision. Defined.

(** [book.get_item_with_id(uid)]: the first item carrying that id. *)
Fixpoint find_item (uid : string) (l : list Item) : option Item :=
  match l with
  | [] => None
  | it :: l' => if decide (item_id it = uid) then Some it else find_item uid l'
  end.

Definition get_item_with_id (book : Book) (uid : string) : option Item :=
  find_item uid (items book).

Definition is_type (t : nat) (it : Item) : bool := Nat.eqb (item_type it) t.

(** [book.get_items_of_type(t)] *)
Definition get_items_of_type (book : Book) (t : nat) : list Item :=
  List.filter (is_type t) (items book).

(** ** The spine resolver *)

(** [spine_item[0] if isinstance(spine_item, tuple) else spine_item] *)
Definition entry_id (e : spine_entry) : string :=
  match e with
  | Composite i _ => i
  | Bare i => i
  end.

(** State of the generator: the [seen_ids] set and the items yielded so
    far, in order. *)
Record resolver := mkResolver {
  seen_ids : gset string;
  yielded : list Item
}.

(** One iteration of the loop over [book.spine]. *)
Definition spine_step (book : Book) (st : resolver) (e : spine_entry)
  : resolver :=
  let uid := entry_id e in
  match get_item_with_id book uid with
  | Some item =>
      if is_type ITEM_DOCUMENT item
      then {| seen_ids := {[uid]} ∪ seen_ids st;
              yielded := yielded st ++ [item] |}
      else st
  | None => st
  end.

(** One iteration of the fallback loop over the document items. *)
Definition fallback_step (st : resolver) (item : Item) : resolver :=
  if decide (item_id item ∉ seen_ids st)
  then {| seen_ids := seen_ids st; yielded := yielded st ++ [item] |}
  else st.

Definition spine_loop (book : Book) (st : resolver) (sp : list spine_entry)
  : resolver := foldl (spine_step book) st sp.

Definition fallback_loop (st : resolver) (docs : list Item) : resolver :=
  foldl fallback_step st docs.

Definition iter_documents_in_order (book : Book) : list Item :=
  let st0 := {| seen_ids := ∅; yielded := [] |} in
  let st1 := spine_loop book st0 (spine book) in
  let st2 := fallback_loop st1 (get_items_of_type book ITEM_DOCUMENT) in
  yielded st2.

(** ** The document tree (BeautifulSoup) *)

(** A parsed document: text nodes, comments and elements. Only what the
    normalizer queries is kept of an element: its name, its CSS classes and
    its children. *)
#[warnings="-register-all"]
Inductive node :=
  | NavigableString (s : str)
  | Comment (s : str)
  | Tag (name : str) (classes : list str) (contents : list node).

(** The [BeautifulSoup] object: the top-level nodes of the document. *)
Definition soup := list node.

Definition has_class (c : str) (classes : list str) : bool :=
  existsb (fun c' => bool_decide (c' = c)) classes.

(** The effect of
    [for spacer in soup.select(".empty-line"): spacer.string = "\n"].
    Assigning [.string] replaces the children of the element by one text
    node. An element matched inside another matched element is detached by
    the assignment to the outer one, so what is assigned to it later no
    longer shows in the tree. *)
Fixpoint set_spacer (n : node) : node :=
  match n with
  | Tag name classes contents =>
      if has_class (u "empty-line") classes
      then Tag name classes [NavigableString [LF]]
      else Tag name classes (List.map set_spacer contents)
  | _ => n
  end.

Definition set_spacers (sp : soup) : soup := List.map set_spacer sp.

(** The strings visited by [get_text]: every text node in document order;
    comments are not text. *)
Fixpoint all_strings (n : node) : list str :=
  match n with
  | NavigableString s => [s]
  | Comment _ => []
  | Tag _ _ contents => List.flat_map all_strings contents
  end.

(** [soup.get_text(separator=sep, strip=False)] *)
Definition get_text (sep : str) (sp : soup) : str :=
  join sep (List.flat_map all_strings sp).

(** ** The gap-preserving normalizer *)

(** State of the cleaning loop. *)
Record cleaner := mkCleaner {
  cleaned : list str;
  previous_blank : bool
}.

Definition nonempty {A} (l : list A) : bool :=
  match l with [] => false | _ => true end.

(** One iteration of [for line in lines]. *)
Definition clean_step (st : cleaner) (line : str) : cleaner :=
  let stripped := strip line in
  if nonempty stripped
  then {| cleaned := cleaned st ++ [stripped]; previous_blank := false |}
  else {| cleaned :=
            if nonempty (cleaned st) && negb (previous_blank st)
            then cleaned st ++ [[]]
            else cleaned st;
          previous_blank := true |}.

Definition clean_loop (st : cleaner) (lines : list str) : cleaner :=
  foldl clean_step st lines.

(** The list [cleaned] after the loop. *)
Definition clean_lines (lines : list str) : list str :=
  cleaned (clean_loop {| cleaned := []; previous_blank := false |} lines).

(** From [raw_text] to the returned text. *)
Definition normalize_text (raw_text : str) : str :=
  strip (join [LF] (clean_lines (splitlines raw_text))).

Definition clean_text_preserving_gaps (sp : soup) : str :=
  normalize_text (get_text [LF] (set_spacers sp)).

(** ** Paths (pathlib) *)

Definition SEP : char := 47.
Definition DOT : char := 46.

(** A pure POSIX path as pathlib holds it: the root ([""], ["/"] or
    ["//"]) and the components after it. *)
Record Path := mkPath {
  root : str;
  parts : list str
}.

Global Instance Path_eq_dec : EqDecision Path.
Proof. solve_decision. Defined.

(** [s.split("/")]; [cur] holds the current piece, reversed. *)
Fixpoint split_sep (cur : str) (s : str) : list str :=
  match s with
  | [] => [rev cur]
  | c :: s' =>
      if c =? SEP then rev cur :: split_sep [] s'
      else split_sep (c :: cur) s'
  end.

(** The root of a path string: one leading separator, or three and more,
    give ["/"]; exactly two give ["//"]. *)
Definition root_of (s : str) : str :=
  match s with
  | c1 :: s1 =>
      if c1 =? SEP then
        match s1 with
        | c2 :: s2 =>
            if c2 =? SEP then
              match s2 with
              | c3 :: _ => if c3 =? SEP then [SEP] else [SEP; SEP]
              | [] => [SEP; SEP]
              end
            else [SEP]
        | [] => [SEP]
        end
      else []
  | [] => []
  end.

Definition is_component (c : str) : bool :=
  negb (bool_decide (c = [])) && negb (bool_decide (c = [DOT])).

(** [Path(s)]: empty pieces and ["."] pieces are dropped. *)
Definition Path_of (s : str) : Path :=
  {| root := root_of s;
     parts := List.filter is_component (split_sep [] s) |}.

(** [str(p)]; the path without root and components is ["."]. *)
Definition str_of_path (p : Path) : str :=
  match root p ++ join [SEP] (parts p) with
  | [] => [DOT]
  | s => s
  end.

(** [p.name]: the last component, or the empty string. *)
Definition name (p : Path) : str := default [] (last (parts p)).

(** [dir / n] for a segment [n] that is one component. The entries that
    [iterdir] yields are made so, and the program joins nothing else but a
    stem followed by [.txt]. *)
Definition path_div (dir : Path) (n : str) : Path :=
  {| root := root dir; parts := parts dir ++ [n] |}.

(** [s.rfind(c)]: the index of the last occurrence of [c], or -1. *)
Fixpoint rfind_from (c : char) (s : str) (i : Z) (found : Z) : Z :=
  match s with
  | [] => found
  | x :: s' => rfind_from c s' (i + 1)%Z (if x =? c then i else found)
  end.

Definition rfind (c : char) (s : str) : Z := rfind_from c s 0%Z (-1)%Z.

Definition has_suffix (n : str) : bool :=
  let i := rfind DOT n in
  ((0 <? i) && (i <? Z.of_nat (length n) - 1))%Z.

(** [p.suffix] *)
Definition suffix (p : Path) : str :=
  if has_suffix (name p)
  then drop (Z.to_nat (rfind DOT (name p))) (name p)
  else [].

(** [p.stem] *)
Definition stem (p : Path) : str :=
  if has_suffix (name p)
  then take (Z.to_nat (rfind DOT (name p))) (name p)
  else name p.

(** [s.lower()] on the ASCII letters. No character outside A-Z has a
    lower-case form that occurs in [".epub"], so the comparison of a
    lowered suffix with [".epub"] is decided by the ASCII letters. *)
Definition lower_char (c : char) : char :=
  if (65 <=? c) && (c <=? 90) then c + 32 else c.

Definition lower (s : str) : str := List.map lower_char s.

(** Comparison of strings by code point, [a <= b]. *)
Fixpoint str_leb (a b : str) : bool :=
  match a, b with
  | [], _ => true
  | _ :: _, [] => false
  | x :: a', y :: b' =>
      if x <? y then true else if y <? x then false else str_leb a' b'
  end.

(** Paths are ordered as their strings. *)
Definition path_le (p q : Path) : Prop :=
  str_leb (str_of_path p) (str_of_path q).

Global Instance path_le_dec p q : Decision (path_le p q).
Proof. unfold path_le. apply _. Defined.

(** [sorted(paths)]: a stable sort by [<=]. *)
Definition sorted (l : list Path) : list Path := merge_sort path_le l.

(** ** The outside world *)

(** What the program meets in the file system. [iterdir] gives the names of
    the entries of a directory. [read_epub] is [epub.read_epub]: [None]
    when the reader raises. [open_fails] and [mkdir_fails] tell whether
    opening a path for writing, and creating a directory with its parents
    where it is not one already, raise [OSError] (a missing directory, a
    file in the way, a refused permission). *)
Record filesystem := mkFilesystem {
  is_dir : Path -> bool;
  iterdir : Path -> list str;
  is_file : Path -> bool;
  read_epub : str -> option Book;
  open_fails : str -> bool;
  mkdir_fails : Path -> bool
}.

(** What the program changes: the text files written (path string handed
    to [open], to content), the lines printed and the directories that
    [mkdir] was asked for. *)
Record world := mkWorld {
  files : gmap str str;
  stdout : list str;
  made_dirs : gset str
}.

Inductive exn :=
  | ValueError (msg : str)
  | EpubException (path : str)
  | OSError (path : str).

(** State and exceptions. *)
Definition io (A : Type) : Type := world -> (exn + A) * world.

Global Instance io_ret : MRet io := fun A a w => (inr a, w).

Global Instance io_bind : MBind io := fun A B k m w =>
  match m w with
  | (inr a, w') => k a w'
  | (inl e, w') => (inl e, w')
  end.

Definition raise {A} (e : exn) : io A := fun w => (inl e, w).

(** [print(line)] *)
Definition print (line : str) : io unit :=
  fun w => (inr tt, {| files := files w;
                       stdout := stdout w ++ [line];
                       made_dirs := made_dirs w |}).

(** [with open(path, "w") as f: f.write(text)] *)
Definition write_text (fs : filesystem) (path : str) (text : str) : io unit :=
  fun w =>
    if open_fails fs path then (inl (OSError path), w)
    else (inr tt, {| files := <[path := text]> (files w);
                     stdout := stdout w;
                     made_dirs := made_dirs w |}).

(** [dir.mkdir(parents=True, exist_ok=True)] *)
Definition mkdir (fs : filesystem) (dir : Path) : io unit :=
  fun w =>
    if mkdir_fails fs dir then (inl (OSError (str_of_path dir)), w)
    else (inr tt, {| files := files w;
                     stdout := stdout w;
                     made_dirs := {[str_of_path dir]} ∪ made_dirs w |}).

(** [for x in l: body(x)] *)
Fixpoint for_each {A} (l : list A) (body : A -> io unit) : io unit :=
  match l with
  | [] => mret tt
  | x :: l' => _ ← body x; for_each l' body
  end.

(** ** Conversion of one file and of a directory *)

Definition ARROW : char := 8594.

Definition converted_message (epub_path txt_path : str) : str :=
  u "Converted '" ++ epub_path ++ u "' " ++ [ARROW] ++ u " '" ++ txt_path
    ++ u "' (full book).".

Definition not_a_directory_message (input_dir : str) : str :=
  u "Input directory '" ++ input_dir
    ++ u "' does not exist or is not a directory.".

Definition no_files_message (input_dir : str) : str :=
  u "No EPUB files found in '" ++ input_dir ++ u "'.".

Section Conversion.

(** [BeautifulSoup(content, "html.parser")] *)
Variable BeautifulSoup : str -> soup.
Variable fs : filesystem.

(** One iteration of [for item in iter_documents_in_order(book)]. *)
Definition append_text (text_content : list str) (item : Item) : list str :=
  let sp := BeautifulSoup (item_content item) in
  let text := clean_text_preserving_gaps sp in
  text_content ++ [text].

(** The string handed to [f.write]. *)
Definition book_text (book : Book) : str :=
  let text_content := foldl append_text [] (iter_documents_in_order book) in
  join [LF; LF] text_content.

Definition epub_to_txt (epub_path txt_path : str) : io unit :=
  book ← match read_epub fs epub_path with
         | Some book => mret book
         | None => raise (EpubException epub_path)
         end;
  _ ← write_text fs txt_path (book_text book);
  print (converted_message epub_path txt_path).

(** The list comprehension of [convert_directory]. *)
Definition is_epub (p : Path) : bool :=
  is_file fs p && bool_decide (lower (suffix p) = u ".epub").

Definition epub_files (input_dir : Path) : list Path :=
  sorted (List.filter is_epub (List.map (path_div input_dir)
                                        (iterdir fs input_dir))).

Definition target_txt (output_dir : Path) (epub_file : Path) : Path :=
  path_div output_dir (stem epub_file ++ u ".txt").

Definition convert_directory (input_dir output_dir : str) : io unit :=
  let input_dir := Path_of input_dir in
  let output_dir := Path_of output_dir in
  if negb (is_dir fs input_dir)
  then raise (ValueError (not_a_directory_message (str_of_path input_dir)))
  else
    _ ← mkdir fs output_dir;
    if negb (nonempty (epub_files input_dir))
    then print (no_files_message (str_of_path input_dir))
    else
      for_each (epub_files input_dir) (fun epub_file =>
        epub_to_txt (str_of_path epub_file)
                    (str_of_path (target_txt output_dir epub_file))).

End Conversion.

(** ** Sample data *)

(** The tree of [<p>Hello</p><div class="empty-line"></div><p>World</p>]. *)
Definition hello_world : soup :=
  [ Tag (u "p") [] [NavigableString (u "Hello")];
    Tag (u "div") [u "empty-line"] [];
    Tag (u "p") [] [NavigableString (u "World")] ].

Definition docA := mkItem "A" ITEM_DOCUMENT (u "<p>a</p>").
Definition docB := mkItem "B" ITEM_DOCUMENT (u "<p>b</p>").
Definition docC := mkItem "C" ITEM_DOCUMENT (u "<p>c</p>").
Definition style := mkItem "style" 2 (u "p {}").

(** Spine [A, B] and a third document [C] that the spine does not name;
    [C] and a stylesheet come first in the enumeration of the items. *)
Definition book_ABC : Book :=
  mkBook [Composite "A" ["yes"]; Bare "B"] [docC; style; docA; docB].

(** A spine that names the same document twice. *)
Definition book_AA : Book := mkBook [Bare "A"; Bare "A"] [docA].

(** A spine that also names a stylesheet and an identifier that no item
    carries. *)
Definition book_skips : Book :=
  mkBook [Bare "A"; Bare "style"; Bare "missing"; Bare "B"]
         [docA; docB; style].

(** A parser for the samples: the content is one text node. *)
Definition text_parser (content : str) : soup := [NavigableString content].

(** A directory [in] with the files [b.epub], [a.EPUB] and [notes.txt]. *)
Definition fs_batch : filesystem :=
  {| is_dir := fun d => bool_decide (d = Path_of (u "in"));
     iterdir := fun _ => [u "b.epub"; u "a.EPUB"; u "notes.txt"];
     is_file := fun _ => true;
     read_epub := fun _ => Some book_ABC;
     open_fails := fun _ => false;
     mkdir_fails := fun _ => false |}.

(** A directory [in] whose only entry is a subdirectory [sub.epub]. *)
Definition fs_subdir : filesystem :=
  {| is_dir := fun d => bool_decide (d = Path_of (u "in"));
     iterdir := fun _ => [u "sub.epub"];
     is_file := fun _ => false;
     read_epub := fun _ => None;
     open_fails := fun _ => false;
     mkdir_fails := fun _ => false |}.

(** A directory [in] with the files [a.epub] and [a.EPUB], two different
    books. *)
Definition book_lower : Book := mkBook [Bare "A"] [docA].
Definition book_upper : Book := mkBook [Bare "B"] [docB].

Definition fs_case : filesystem :=
  {| is_dir := fun d => bool_decide (d = Path_of (u "in"));
     iterdir := fun _ => [u "a.epub"; u "a.EPUB"];
     is_file := fun _ => true;
     read_epub := fun path =>
       if bool_decide (path = u "in/a.epub") then Some book_lower
       else Some book_upper;
     open_fails := fun _ => false;
     mkdir_fails := fun _ => false |}.

Definition world0 : world := {| files := ∅; stdout := []; made_dirs := ∅ |}.

(** ** Vocabulary of the statements *)

(** Lines 39-40: the lookup of an identifier followed by the type test. *)
Definition resolve_document (book : Book) (e : spine_entry) : option Item :=
  match get_item_with_id book (entry_id e) with
  | Some item => if is_type ITEM_DOCUMENT item then Some item else None
  | None => None
  end.

(** Identifiers are unique within a package. *)
Definition unique_ids (book : Book) : Prop :=
  NoDup (List.map item_id (items book)).

(** The spine's identifiers, in declared order. *)
Definition spine_ids (book : Book) : list string :=
  List.map entry_id (spine book).

(** Every document of the package is yielded exactly once. *)
Definition each_document_once (book : Book) : Prop :=
  forall it, it ∈ get_items_of_type book ITEM_DOCUMENT ->
    count_occ Item_eq_dec (iter_documents_in_order book) it = 1%nat.

(** A string that is not empty and has no white space at either end. *)
Definition starts_ok (s : str) : bool :=
  match s with [] => false | c :: _ => negb (is_space c) end.

Definition ends_ok (s : str) : bool := starts_ok (rev s).

Definition trimmed (s : str) : bool := starts_ok s && ends_ok s.

(** A string without line boundary. *)
Definition plain (s : str) : Prop := Forall (fun c => is_linebreak c = false) s.

(** What the loop appends to [cleaned], read from the left: [started]
    tells whether [cleaned] is not empty, [pb] is [previous_blank]. *)
Fixpoint collapse (started pb : bool) (lines : list str) : list str :=
  match lines with
  | [] => []
  | line :: rest =>
      match strip line with
      | [] => if started && negb pb
              then [] :: collapse started true rest
              else collapse started true rest
      | stripped => stripped :: collapse true false rest
      end
  end.

(** No empty line at the head when [after_blank], and no two empty lines
    in a row. *)
Fixpoint gaps_ok (after_blank : bool) (l : list str) : bool :=
  match l with
  | [] => true
  | [] :: l' => negb after_blank && gaps_ok true l'
  | _ :: l' => gaps_ok false l'
  end.

(** A line of the result: empty, or text without white space around it. *)
Definition line_ok (x : str) : Prop := x = [] \/ trimmed x = true.

(** The string of a path below [dir] is a prefix that [dir] decides,
    followed by the name. *)
Definition dir_prefix (dir : Path) : str :=
  match parts dir with
  | [] => root dir
  | _ => root dir ++ join [SEP] (parts dir) ++ [SEP]
  end.

(** The entries of [input_dir] as paths. *)
Definition entries (fs : filesystem) (input_dir : Path) : list Path :=
  List.map (path_div input_dir) (iterdir fs input_dir).

(** The claim that the selection is decided by the extension alone. *)
Definition selects_by_extension (fs : filesystem) (input_dir : Path) : Prop :=
  forall p, p ∈ entries fs input_dir ->
    (p ∈ epub_files fs input_dir <-> lower (suffix p) = u ".epub").

(** The claim that the lines of the joined text are the lines of the
    blocks with exactly one empty line between two consecutive blocks. *)
Definition one_empty_line_between (blocks : list str) : Prop :=
  splitlines (join [LF; LF] blocks) = join [[]] (splitlines <$> blocks).

(** A selected file is converted when it is read and its target opened. *)
Definition convertible (fs : filesystem) (output_dir : Path)
    (epub_file : Path) : Prop :=
  is_Some (read_epub fs (str_of_path epub_file))
  /\ open_fails fs (str_of_path (target_txt output_dir epub_file)) = false.

(** The world after the conversion of one file. *)
Definition converted (BeautifulSoup : str -> soup) (fs : filesystem)
    (output_dir : Path) (w : world) (epub_file : Path) : world :=
  match read_epub fs (str_of_path epub_file) with
  | Some book =>
      if open_fails fs (str_of_path (target_txt output_dir epub_file))
      then w
      else
        {| files := <[str_of_path (target_txt output_dir epub_file)
                      := book_text BeautifulSoup book]> (files w);
           stdout := stdout w
                     ++ [converted_message
                           (str_of_path epub_file)
                           (str_of_path (target_txt output_dir epub_file))];
           made_dirs := made_dirs w |}
  | None => w
  end.

(** What the conversion of a file writes: the path and the text, when the
    file is read and the target opened. *)
Definition written (BeautifulSoup : str -> soup) (fs : filesystem)
    (output_dir : Path) (epub_file : Path) : option (str * str) :=
  match read_epub fs (str_of_path epub_file) with
  | Some book =>
      if open_fails fs (str_of_path (target_txt output_dir epub_file))
      then None
      else Some (str_of_path (target_txt output_dir epub_file),
                 book_text BeautifulSoup book)
  | None => None
  end.

(** The exception that ends the conversion of a file, if any. *)
Definition conversion_error (fs : filesystem) (output_dir : Path)
    (epub_file : Path) : option exn :=
  match read_epub fs (str_of_path epub_file) with
  | Some _ =>
      if open_fails fs (str_of_path (target_txt output_dir epub_file))
      then Some (OSError (str_of_path (target_txt output_dir epub_file)))
      else None
  | None => Some (EpubException (str_of_path epub_file))
  end.

(** ** The command line *)

(** The namespace returned by [parser.parse_args()]: each option is absent
    ([None]) or carries the string given for it. *)
Record Namespace := mkNamespace {
  input_file : option str;
  output_file : option str;
  input_dir : option str;
  output_dir : option str
}.

(** Truth value of an option's value: [None] and the empty string are
    false. *)
Definition truthy (o : option str) : bool :=
  match o with
  | Some (_ :: _) => true
  | _ => false
  end.

(** How a run of the program ends: [parser.error] leaves with
    [SystemExit], an exception of a conversion is not caught, or [main]
    returns. *)
Inductive outcome :=
  | SystemExit (status : Z) (message : str)
  | Uncaught (e : exn)
  | Returned.

(** [parser.error(message)]: exit status 2. *)
Definition parser_error (message : str) (w : world) : outcome * world :=
  (SystemExit 2 message, w).

Definition call (m : io unit) (w : world) : outcome * world :=
  match m w with
  | (inr _, w') => (Returned, w')
  | (inl e, w') => (Uncaught e, w')
  end.

Definition both_modes_message : str :=
  u "Specify either file arguments or directory arguments, not both.".

Definition file_pair_message : str :=
  u "Both --input-file and --output-file must be provided for single-file conversion.".

Definition dir_pair_message : str :=
  u "Both --input-dir and --output-dir must be provided for batch conversion.".

Definition no_mode_message : str :=
  u "Please provide either --input-file/--output-file for single conversion "
  ++ u "or --input-dir/--output-dir for batch conversion.".

(** The string of an option that is known to be set. *)
Definition value (o : option str) : str := default [] o.

(** [main], from the parsed arguments on. *)
Definition main (BeautifulSoup : str -> soup) (fs : filesystem)
    (args : Namespace) (w : world) : outcome * world :=
  let file_mode := truthy (input_file args) || truthy (output_file args) in
  let dir_mode := truthy (input_dir args) || truthy (output_dir args) in
  if file_mode && dir_mode then parser_error both_modes_message w
  else if truthy (input_file args) || truthy (output_file args) then
    if negb (truthy (input_file args) && truthy (output_file args))
    then parser_error file_pair_message w
    else call (epub_to_txt BeautifulSoup fs (value (input_file args))
                                           (value (output_file args))) w
  else if truthy (input_dir args) || truthy (output_dir args) then
    if negb (truthy (input_dir args) && truthy (output_dir args))
    then parser_error dir_pair_message w
    else call (convert_directory BeautifulSoup fs (value (input_dir args))
                                                 (value (output_dir args))) w
  else parser_error no_mode_message w.

(** A book without spine whose items are a stylesheet and two documents. *)
Definition book_no_spine : Book := mkBook [] [docB; style; docA].

(** A book whose only item is a stylesheet, named by the spine, and a
    reader that returns it for every path. *)
Definition book_styles : Book := mkBook [Bare "style"] [style].

Definition fs_styles : filesystem :=
  {| is_dir := fun _ => true;
     iterdir := fun _ => [];
     is_file := fun _ => true;
     read_epub := fun _ => Some book_styles;
     open_fails := fun _ => false;
     mkdir_fails := fun _ => false |}.

(** A directory [in] with the files [a.epub], [b.epub] and [c.epub]; the
    reader raises on [b.epub]. *)
Definition fs_broken : filesystem :=
  {| is_dir := fun d => bool_decide (d = Path_of (u "in"));
     iterdir := fun _ => [u "c.epub"; u "a.epub"; u "b.epub"];
     is_file := fun _ => true;
     read_epub := fun path =>
       if bool_decide (path = u "in/b.epub") then None else Some book_ABC;
     open_fails := fun _ => false;
     mkdir_fails := fun _ => false |}.

(** Three documents, the second of white space only, with a spine that
    names them in order, and a reader that returns this book. *)
Definition book_blank : Book :=
  mkBook [Bare "A"; Bare "E"; Bare "B"]
         [mkItem "A" ITEM_DOCUMENT (u "a");
          mkItem "E" ITEM_DOCUMENT (u "  ");
          mkItem "B" ITEM_DOCUMENT (u "b")].

Definition fs_blank : filesystem :=
  {| is_dir := fun _ => true;
     iterdir := fun _ => [];
     is_file := fun _ => true;
     read_epub := fun _ => Some book_blank;
     open_fails := fun _ => false;
     mkdir_fails := fun _ => false |}.

(** * The spine resolver *)

Section Resolver.

Variable book : Book.

Lemma find_item_Some uid l it :
  find_item uid l = Some it -> item_id it = uid /\ it ∈ l.
Proof.
  induction l as [|x l IH]; simpl; [done|].
  destruct (decide (item_id x = uid)) as [Hx|Hx].
  - intros [= <-]. split; [done | apply list_elem_of_here].
  - intros H. destruct (IH H). split; [done | by apply list_elem_of_further].
Qed.

Lemma find_item_unique l it :
  NoDup (List.map item_id l) -> it ∈ l -> find_item (item_id it) l = Some it.
Proof.
  induction l as [|x l IH]; simpl; intros Hnd Hin.
  - by apply elem_of_nil in Hin.
  - apply NoDup_cons in Hnd as [Hx Hnd].
    destruct (decide (item_id x = item_id it)) as [Heq|Hne].
    + apply elem_of_cons in Hin as [->|Hin]; [done|].
      exfalso. apply Hx. rewrite Heq.
      apply list_elem_of_In, in_map, list_elem_of_In, Hin.
    + apply elem_of_cons in Hin as [->|Hin]; [done | by apply IH].
Qed.

Lemma resolve_document_Some e it :
  resolve_document book e = Some it ->
  item_id it = entry_id e /\ it ∈ get_items_of_type book ITEM_DOCUMENT.
Proof.
  unfold resolve_document, get_item_with_id.
  destruct (find_item _ _) as [x|] eqn:Hf; [|done].
  destruct (is_type ITEM_DOCUMENT x) eqn:Ht; [|done].
  intros [= <-]. apply find_item_Some in Hf as [Hid Hin].
  split; [done|]. unfold get_items_of_type.
  apply list_elem_of_In, filter_In. split; [by apply list_elem_of_In | done].
Qed.

Lemma spine_step_resolve st e :
  spine_step book st e =
    match resolve_document book e with
    | Some item => {| seen_ids := {[entry_id e]} ∪ seen_ids st;
                      yielded := yielded st ++ [item] |}
    | None => st
    end.
Proof.
  unfold spine_step, resolve_document.
  destruct (get_item_with_id _ _) as [x|]; [|done].
  by destruct (is_type _ x).
Qed.

(** The spine loop yields the resolved entries in order and records
    their identifiers. *)
Lemma spine_loop_spec sp st :
  spine_loop book st sp =
    {| seen_ids :=
         list_to_set (item_id <$> omap (resolve_document book) sp)
           ∪ seen_ids st;
       yielded := yielded st ++ omap (resolve_document book) sp |}.
Proof.
  unfold spine_loop. revert st.
  induction sp as [|e sp IH]; intros st; simpl.
  - destruct st as [s y]; simpl. f_equal; [set_solver | by rewrite app_nil_r].
  - rewrite IH, spine_step_resolve.
    destruct (resolve_document book e) as [it|] eqn:Hr; simpl; [|done].
    apply resolve_document_Some in Hr as [-> _].
    f_equal; [set_solver | by rewrite <- app_assoc].
Qed.

(** The fallback loop yields the items whose identifier was not seen. *)
Lemma fallback_loop_spec docs st :
  fallback_loop st docs =
    {| seen_ids := seen_ids st;
       yielded := yielded st ++ filter (fun it => item_id it ∉ seen_ids st) docs |}.
Proof.
  unfold fallback_loop. revert st.
  induction docs as [|d docs IH]; intros st; simpl.
  - destruct st; simpl. by rewrite app_nil_r.
  - rewrite IH. unfold fallback_step. rewrite filter_cons.
    destruct (decide (item_id d ∉ seen_ids st)); simpl; [|done].
    by rewrite <- app_assoc.
Qed.

Lemma iter_documents_in_order_spec :
  iter_documents_in_order book =
    omap (resolve_document book) (spine book)
    ++ filter (fun it => item_id it ∉
                 (item_id <$> omap (resolve_document book) (spine book)))
         (get_items_of_type book ITEM_DOCUMENT).
Proof.
  unfold iter_documents_in_order.
  rewrite fallback_loop_spec, spine_loop_spec. simpl. f_equal.
  apply list_filter_iff. intros it. set_solver.
Qed.

End Resolver.

(** What is resolved depends on the entries' identifiers and on the items
    only. *)
Lemma resolve_document_ext sp1 sp2 its e1 e2 :
  entry_id e1 = entry_id e2 ->
  resolve_document (mkBook sp1 its) e1 = resolve_document (mkBook sp2 its) e2.
Proof. unfold resolve_document, get_item_with_id. simpl. by intros ->. Qed.

Lemma omap_resolve_ext its sp1 sp2 l1 l2 :
  List.map entry_id l1 = List.map entry_id l2 ->
  omap (resolve_document (mkBook sp1 its)) l1
  = omap (resolve_document (mkBook sp2 its)) l2.
Proof.
  revert l2. induction l1 as [|e1 l1 IH]; intros [|e2 l2]; try done.
  intros [= He Hl]. cbn [omap list_omap].
  rewrite (resolve_document_ext sp1 sp2 its e1 e2 He).
  by rewrite (IH l2 Hl).
Qed.

Lemma iter_documents_in_order_ext its sp1 sp2 :
  List.map entry_id sp1 = List.map entry_id sp2 ->
  iter_documents_in_order (mkBook sp1 its)
  = iter_documents_in_order (mkBook sp2 its).
Proof.
  intros H. rewrite !iter_documents_in_order_spec.
  change (spine (mkBook sp1 its)) with sp1.
  change (spine (mkBook sp2 its)) with sp2.
  by rewrite (omap_resolve_ext its sp1 sp2 sp1 sp2 H).
Qed.

Lemma filter_ext_elem {A} (P Q : A -> Prop)
    `{!forall x, Decision (P x)} `{!forall x, Decision (Q x)} (l : list A) :
  (forall x, x ∈ l -> P x <-> Q x) -> filter P l = filter Q l.
Proof.
  induction l as [|x l IH]; intros Hext; [done|].
  rewrite !filter_cons.
  rewrite IH by (intros y Hy; apply Hext; by apply list_elem_of_further).
  pose proof (Hext x (list_elem_of_here x l)) as Hx.
  destruct (decide (P x)), (decide (Q x)); tauto.
Qed.

Section UniqueIds.

Variable book : Book.
Hypothesis Huniq : unique_ids book.

Local Abbreviation docs := (get_items_of_type book ITEM_DOCUMENT).

Lemma docs_elem_of it :
  it ∈ docs <-> it ∈ items book /\ is_type ITEM_DOCUMENT it = true.
Proof.
  unfold get_items_of_type.
  rewrite list_elem_of_In, filter_In, <- list_elem_of_In. done.
Qed.

Lemma docs_NoDup : NoDup docs.
Proof.
  unfold get_items_of_type. apply NoDup_ListNoDup, List.NoDup_filter.
  apply NoDup_ListNoDup. eapply NoDup_fmap_1. exact Huniq.
Qed.

(** An entry naming a document resolves to that very document. *)
Lemma resolve_document_doc e it :
  it ∈ docs -> entry_id e = item_id it ->
  resolve_document book e = Some it.
Proof.
  intros [Hin Ht]%docs_elem_of He.
  unfold resolve_document, get_item_with_id. rewrite He.
  rewrite (find_item_unique _ _ Huniq Hin). by rewrite Ht.
Qed.

Lemma seen_iff_referenced it :
  it ∈ docs ->
  item_id it ∈ (item_id <$> omap (resolve_document book) (spine book))
  <-> item_id it ∈ spine_ids book.
Proof.
  intros Hd. unfold spine_ids. split.
  - intros (x & Hid & Hx)%list_elem_of_fmap.
    apply list_elem_of_omap in Hx as (e & He & Hr).
    apply resolve_document_Some in Hr as [Hxe _].
    rewrite Hid, Hxe. apply list_elem_of_fmap. eauto.
  - intros (e & Hid & He)%list_elem_of_fmap.
    apply list_elem_of_fmap. exists it. split; [done|].
    apply list_elem_of_omap. exists e. split; [done|].
    by apply resolve_document_doc.
Qed.

Lemma undeclared_filter :
  filter (fun it => item_id it ∉
            (item_id <$> omap (resolve_document book) (spine book))) docs
  = filter (fun it => item_id it ∉ spine_ids book) docs.
Proof.
  apply filter_ext_elem. intros it Hin.
  by rewrite (seen_iff_referenced it Hin).
Qed.

(** A document is yielded by the spine loop once per entry naming it. *)
Lemma count_declared it sp :
  it ∈ docs ->
  count_occ Item_eq_dec (omap (resolve_document book) sp) it
  = count_occ string_dec (List.map entry_id sp) (item_id it).
Proof.
  intros Hd. induction sp as [|e sp IH]; [done|].
  cbn [omap list_omap List.map count_occ].
  destruct (string_dec (entry_id e) (item_id it)) as [He|He].
  - rewrite (resolve_document_doc e it Hd He). cbn [count_occ].
    destruct (Item_eq_dec it it); [by rewrite IH | done].
  - destruct (resolve_document book e) as [x|] eqn:Hr; [|done].
    apply resolve_document_Some in Hr as [Hx _]. cbn [count_occ].
    destruct (Item_eq_dec x it) as [->|]; [done | apply IH].
Qed.

Lemma count_filter (P : Item -> Prop) `{!forall x, Decision (P x)} l it :
  count_occ Item_eq_dec (filter P l) it
  = if decide (P it) then count_occ Item_eq_dec l it else 0%nat.
Proof.
  induction l as [|x l IH]; simpl; [by destruct (decide (P it))|].
  rewrite filter_cons. destruct (decide (P x)) as [Hx|Hx]; simpl.
  - destruct (Item_eq_dec x it) as [->|]; [|done].
    rewrite IH. by destruct (decide (P it)).
  - destruct (Item_eq_dec x it) as [->|]; [|done].
    rewrite IH. by destruct (decide (P it)).
Qed.

Lemma count_docs it : it ∈ docs -> count_occ Item_eq_dec docs it = 1%nat.
Proof.
  intros Hd. pose proof docs_NoDup as Hnd.
  apply NoDup_ListNoDup in Hnd.
  rewrite (List.NoDup_count_occ Item_eq_dec) in Hnd. specialize (Hnd it).
  apply list_elem_of_In in Hd.
  apply (count_occ_In Item_eq_dec) in Hd. lia.
Qed.

Lemma count_yielded it :
  it ∈ docs ->
  count_occ Item_eq_dec (iter_documents_in_order book) it
  = Nat.max 1 (count_occ string_dec (spine_ids book) (item_id it)).
Proof.
  intros Hd. rewrite iter_documents_in_order_spec, undeclared_filter.
  rewrite count_occ_app, (count_declared it _ Hd), count_filter.
  fold (spine_ids book). rewrite (count_docs it Hd).
  destruct (decide (item_id it ∉ spine_ids book)) as [Hn|Hn].
  - rewrite list_elem_of_In, (count_occ_not_In string_dec) in Hn. lia.
  - apply dec_stable in Hn.
    rewrite list_elem_of_In, (count_occ_In string_dec) in Hn. lia.
Qed.

Lemma yielded_are_docs it :
  it ∈ iter_documents_in_order book <-> it ∈ docs.
Proof.
  split.
  - rewrite iter_documents_in_order_spec. intros [H|H]%elem_of_app.
    + apply list_elem_of_omap in H as (e & _ & Hr).
      by apply resolve_document_Some in Hr as [_ ?].
    + by apply list_elem_of_filter in H as [_ ?].
  - intros Hd. apply list_elem_of_In, (count_occ_In Item_eq_dec).
    rewrite (count_yielded it Hd). lia.
Qed.

End UniqueIds.

(** ** Properties of the resolved sequence *)

(** C1, as amended. In a package whose identifiers are unique, the resolved
    sequence holds exactly the document-type items of the package: none is
    omitted and nothing else is yielded. A document is yielded once for
    each spine entry that names it, and once when no entry names it; so
    every document is yielded exactly once when the spine names no
    identifier twice. *)
Theorem iter_documents_complete (book : Book) :
  unique_ids book ->
  (forall it, it ∈ iter_documents_in_order book
              <-> it ∈ get_items_of_type book ITEM_DOCUMENT)
  /\ (forall it, it ∈ get_items_of_type book ITEM_DOCUMENT ->
        count_occ Item_eq_dec (iter_documents_in_order book) it
        = Nat.max 1 (count_occ string_dec (spine_ids book) (item_id it)))
  /\ (NoDup (spine_ids book) -> each_document_once book).
Proof.
  intros Hu. split; [|split].
  - intros it. by apply yielded_are_docs.
  - intros it Hd. by apply count_yielded.
  - intros Hnd it Hd. rewrite (count_yielded book Hu it Hd).
    apply NoDup_ListNoDup in Hnd.
    rewrite (List.NoDup_count_occ string_dec) in Hnd.
    specialize (Hnd (item_id it)). lia.
Qed.

Lemma iter_documents_complete_witness :
  unique_ids book_ABC
  /\ (forall it, it ∈ iter_documents_in_order book_ABC
                 <-> it ∈ get_items_of_type book_ABC ITEM_DOCUMENT)
  /\ (forall it, it ∈ get_items_of_type book_ABC ITEM_DOCUMENT ->
        count_occ Item_eq_dec (iter_documents_in_order book_ABC) it
        = Nat.max 1 (count_occ string_dec (spine_ids book_ABC) (item_id it)))
  /\ (NoDup (spine_ids book_ABC) -> each_document_once book_ABC).
Proof.
  assert (Hu : unique_ids book_ABC).
  { unfold unique_ids. compute_done. }
  split; [exact Hu | exact (iter_documents_complete book_ABC Hu)].
Defined.

(** C1 as stated fails: a spine naming the document [A] twice makes the
    resolver yield [A] twice. *)
Lemma repeated_spine_entry_yields_twice :
  unique_ids book_AA
  /\ iter_documents_in_order book_AA = [docA; docA]
  /\ ~ each_document_once book_AA.
Proof.
  split; [|split].
  - unfold unique_ids. compute_done.
  - vm_compute. reflexivity.
  - intros H. specialize (H docA).
    assert (Hin : docA ∈ get_items_of_type book_AA ITEM_DOCUMENT)
      by compute_done.
    apply H in Hin. vm_compute in Hin. discriminate Hin.
Qed.

(** C4. In a package whose identifiers are unique, the resolved sequence is
    the documents named by the spine, in the order of the spine, followed by
    the documents that the spine does not name, in the order in which the
    package enumerates them. The identifiers of the first part are the
    spine's identifiers, in declared order, less those that resolve to no
    document. *)
Theorem iter_documents_order (book : Book) :
  unique_ids book ->
  let declared := omap (resolve_document book) (spine book) in
  let undeclared :=
    filter (fun it => item_id it ∉ spine_ids book)
           (get_items_of_type book ITEM_DOCUMENT) in
  iter_documents_in_order book = declared ++ undeclared
  /\ (item_id <$> declared) `sublist_of` spine_ids book
  /\ (forall i, i ∈ (item_id <$> get_items_of_type book ITEM_DOCUMENT) ->
        count_occ string_dec (item_id <$> declared) i
        = count_occ string_dec (spine_ids book) i).
Proof.
  intros Hu declared undeclared. split; [|split].
  - rewrite iter_documents_in_order_spec. unfold declared, undeclared.
    by rewrite undeclared_filter.
  - unfold declared, spine_ids. clear. induction (spine book) as [|e sp IH].
    + constructor.
    + cbn [omap list_omap List.map].
      destruct (resolve_document book e) as [x|] eqn:Hr.
      * apply resolve_document_Some in Hr as [Hx _].
        rewrite fmap_cons, Hx. by constructor.
      * by constructor.
  - intros i (it & -> & Hd)%list_elem_of_fmap.
    unfold declared, spine_ids. clear declared undeclared.
    induction (spine book) as [|e sp IH]; [done|].
    cbn [omap list_omap List.map count_occ].
    destruct (string_dec (entry_id e) (item_id it)) as [He|He].
    + rewrite (resolve_document_doc book Hu e it Hd He).
      rewrite fmap_cons. cbn [count_occ].
      destruct (string_dec (item_id it) (item_id it)); [by rewrite IH|done].
    + destruct (resolve_document book e) as [x|] eqn:Hr; [|done].
      apply resolve_document_Some in Hr as [Hx _].
      rewrite fmap_cons. cbn [count_occ].
      destruct (string_dec (item_id x) (item_id it)); [congruence | done].
Qed.

Lemma iter_documents_order_witness :
  unique_ids book_ABC
  /\ iter_documents_in_order book_ABC = [docA; docB] ++ [docC].
Proof.
  assert (Hu : unique_ids book_ABC).
  { unfold unique_ids. compute_done. }
  split; [exact Hu|].
  destruct (iter_documents_order book_ABC Hu) as [-> _].
  vm_compute. reflexivity.
Defined.

(** C7. A spine entry whose identifier no item carries, or whose item is
    not of document type, leaves the state of the resolver unchanged: it
    yields nothing and nothing is raised. The resolved sequence is the one
    of the spine without that entry, so the entries after it are processed
    as before. *)
Theorem skipped_spine_entry (its : list Item) (e : spine_entry) :
  (find_item (entry_id e) its = None
   \/ exists it, find_item (entry_id e) its = Some it
                 /\ item_type it <> ITEM_DOCUMENT) ->
  (forall sp st, spine_step (mkBook sp its) st e = st)
  /\ (forall pre post,
        iter_documents_in_order (mkBook (pre ++ e :: post) its)
        = iter_documents_in_order (mkBook (pre ++ post) its)).
Proof.
  intros Hskip.
  assert (Hr : forall sp, resolve_document (mkBook sp its) e = None).
  { intros sp. unfold resolve_document, get_item_with_id. simpl.
    destruct Hskip as [->|(it & -> & Ht)]; [done|].
    unfold is_type. by apply Nat.eqb_neq in Ht as ->. }
  split.
  - intros sp st. by rewrite spine_step_resolve, Hr.
  - intros pre post. rewrite !iter_documents_in_order_spec.
    change (spine (mkBook (pre ++ e :: post) its)) with (pre ++ e :: post).
    change (spine (mkBook (pre ++ post) its)) with (pre ++ post).
    rewrite !omap_app. cbn [omap list_omap]. rewrite Hr.
    rewrite !(omap_resolve_ext its (pre ++ e :: post) (pre ++ post) pre pre),
            !(omap_resolve_ext its (pre ++ e :: post) (pre ++ post) post post);
      done.
Qed.

Lemma skipped_spine_entry_witness :
  (find_item (entry_id (Bare "style")) (items book_skips) = None
   \/ exists it, find_item (entry_id (Bare "style")) (items book_skips)
                 = Some it /\ item_type it <> ITEM_DOCUMENT)
  /\ iter_documents_in_order book_skips
     = iter_documents_in_order
         (mkBook [Bare "A"; Bare "missing"; Bare "B"] (items book_skips)).
Proof.
  assert (H : find_item (entry_id (Bare "style")) (items book_skips) = None
   \/ exists it, find_item (entry_id (Bare "style")) (items book_skips)
                 = Some it /\ item_type it <> ITEM_DOCUMENT).
  { right. exists style. split; [reflexivity | discriminate]. }
  split; [exact H|].
  exact (proj2 (skipped_spine_entry (items book_skips) (Bare "style") H)
               [Bare "A"] [Bare "missing"; Bare "B"]).
Defined.

(** C8. A bare identifier and a tuple whose first element is that
    identifier denote the same identifier, make the same step of the
    resolver and, put at the same place of a spine, give the same resolved
    sequence. When the identifier is that of a document, the step of either
    shape yields that document and records the identifier, and a spine made
    of the one entry, in either shape, gives that document followed by the
    other documents of the package. *)
Theorem spine_entry_shapes (its : list Item) (i : string) (rest : list string) :
  entry_id (Bare i) = i
  /\ entry_id (Composite i rest) = i
  /\ (forall sp st,
        spine_step (mkBook sp its) st (Bare i)
        = spine_step (mkBook sp its) st (Composite i rest))
  /\ (forall pre post,
        iter_documents_in_order (mkBook (pre ++ Bare i :: post) its)
        = iter_documents_in_order (mkBook (pre ++ Composite i rest :: post) its))
  /\ (forall it,
        find_item i its = Some it -> item_type it = ITEM_DOCUMENT ->
        (forall sp st,
           spine_step (mkBook sp its) st (Bare i)
           = {| seen_ids := {[i]} ∪ seen_ids st;
                yielded := yielded st ++ [it] |}
           /\ spine_step (mkBook sp its) st (Composite i rest)
              = {| seen_ids := {[i]} ∪ seen_ids st;
                   yielded := yielded st ++ [it] |})
        /\ iter_documents_in_order (mkBook [Bare i] its)
           = it :: filter (fun d => item_id d <> i)
                     (List.filter (is_type ITEM_DOCUMENT) its)
        /\ iter_documents_in_order (mkBook [Composite i rest] its)
           = it :: filter (fun d => item_id d <> i)
                     (List.filter (is_type ITEM_DOCUMENT) its)).
Proof.
  split; [done|]. split; [done|]. split; [done|]. split.
  { intros pre post. apply iter_documents_in_order_ext. by rewrite !map_app. }
  intros it Hfind Htype.
  assert (Hdoc : is_type ITEM_DOCUMENT it = true)
    by (unfold is_type; by apply Nat.eqb_eq).
  assert (Hres : forall sp e, entry_id e = i ->
            resolve_document (mkBook sp its) e = Some it).
  { intros sp e He. unfold resolve_document, get_item_with_id.
    cbn [items]. by rewrite He, Hfind, Hdoc. }
  assert (Hiter : forall e, entry_id e = i ->
            iter_documents_in_order (mkBook [e] its)
            = it :: filter (fun d => item_id d <> i)
                      (List.filter (is_type ITEM_DOCUMENT) its)).
  { intros e He. rewrite iter_documents_in_order_spec. cbn [spine].
    cbn [omap list_omap]. rewrite (Hres [e] e He).
    cbn [app fmap list_fmap]. f_equal.
    apply find_item_Some in Hfind as [Hid _]. rewrite Hid.
    apply list_filter_iff. intros d. by rewrite list_elem_of_singleton. }
  split; [|split; by apply Hiter].
  intros sp st. rewrite !spine_step_resolve.
  by rewrite (Hres sp (Bare i)), (Hres sp (Composite i rest)).
Qed.

Lemma spine_entry_shapes_witness :
  find_item "A" (items book_ABC) = Some docA
  /\ item_type docA = ITEM_DOCUMENT
  /\ iter_documents_in_order (mkBook [Bare "A"] (items book_ABC))
     = [docA; docC; docB]
  /\ iter_documents_in_order (mkBook [Composite "A" ["yes"]] (items book_ABC))
     = [docA; docC; docB].
Proof.
  assert (Hf : find_item "A" (items book_ABC) = Some docA) by reflexivity.
  assert (Ht : item_type docA = ITEM_DOCUMENT) by reflexivity.
  destruct (spine_entry_shapes (items book_ABC) "A" ["yes"])
    as (_ & _ & _ & _ & Hdoc).
  destruct (Hdoc docA Hf Ht) as (_ & Hbare & Htuple).
  split; [exact Hf|]. split; [exact Ht|]. split.
  - rewrite Hbare. vm_compute. reflexivity.
  - rewrite Htuple. vm_compute. reflexivity.
Defined.

(** * Strings *)

Lemma linebreak_is_space c : is_linebreak c = true -> is_space c = true.
Proof.
  unfold is_linebreak, is_space.
  rewrite !orb_true_iff, !andb_true_iff, !N.leb_le, !N.eqb_eq. lia.
Qed.

Lemma LF_is_space : is_space LF = true.
Proof. reflexivity. Qed.

Lemma dropwhile_starts p s :
  dropwhile p s = [] \/ exists c t, dropwhile p s = c :: t /\ p c = false.
Proof.
  induction s as [|c s IH]; simpl; [by left|].
  destruct (p c) eqn:Hc; [done|]. right. eauto.
Qed.

Lemma dropwhile_app p a b :
  dropwhile p (a ++ b) =
    match dropwhile p a with [] => dropwhile p b | t => t ++ b end.
Proof.
  induction a as [|c a IH]; simpl; [done|]. by destruct (p c).
Qed.

Lemma Forall_dropwhile (P : char -> Prop) p s :
  Forall P s -> Forall P (dropwhile p s).
Proof.
  induction 1 as [|c s Hc Hs IH]; simpl; [done|].
  destruct (p c); [done | by constructor].
Qed.

Lemma lstrip_starts s : lstrip s = [] \/ starts_ok (lstrip s) = true.
Proof.
  unfold lstrip. destruct (dropwhile_starts is_space s) as [->|(c & t & -> & Hc)].
  - by left.
  - right. simpl. by rewrite Hc.
Qed.

Lemma lstrip_id s : starts_ok s = true -> lstrip s = s.
Proof.
  destruct s as [|c s]; simpl; [done|].
  unfold lstrip. simpl. by destruct (is_space c).
Qed.

Lemma rstrip_id s : ends_ok s = true -> rstrip s = s.
Proof.
  unfold ends_ok, rstrip. intros H.
  change (dropwhile is_space (rev s)) with (lstrip (rev s)).
  by rewrite (lstrip_id _ H), rev_involutive.
Qed.

Lemma rstrip_ends s : rstrip s = [] \/ ends_ok (rstrip s) = true.
Proof.
  unfold rstrip, ends_ok. rewrite rev_involutive.
  destruct (lstrip_starts (rev s)) as [H|H]; unfold lstrip in H.
  - left. by rewrite H.
  - by right.
Qed.

(** [rstrip] read from the left. *)
Lemma rstrip_cons c s :
  rstrip (c :: s) =
    match rstrip s with
    | [] => if is_space c then [] else [c]
    | t => c :: t
    end.
Proof.
  unfold rstrip. simpl rev. rewrite dropwhile_app.
  destruct (dropwhile is_space (rev s)) as [|x t] eqn:Hd; simpl.
  - by destruct (is_space c).
  - rewrite rev_app_distr. simpl.
    destruct (rev t ++ [x]) eqn:Ht; [by destruct (rev t)|done].
Qed.

Lemma rstrip_snoc s c :
  rstrip (s ++ [c]) = if is_space c then rstrip s else s ++ [c].
Proof.
  unfold rstrip. rewrite rev_app_distr. simpl.
  destruct (is_space c); [done|]. simpl. by rewrite rev_involutive.
Qed.

Lemma rstrip_starts s : starts_ok s = true -> starts_ok (rstrip s) = true.
Proof.
  destruct s as [|c s]; [done|]. simpl. intros Hc. rewrite rstrip_cons.
  destruct (rstrip s); simpl; [|done].
  destruct (is_space c) eqn:E; simpl in *; [done | by rewrite E].
Qed.

Lemma strip_trimmed s : strip s = [] \/ trimmed (strip s) = true.
Proof.
  unfold strip, trimmed. destruct (lstrip_starts s) as [->|Hs]; [by left|].
  right. rewrite (rstrip_starts _ Hs). simpl.
  destruct (rstrip_ends (lstrip s)) as [He|He]; [|done].
  apply rstrip_starts in Hs. by rewrite He in Hs.
Qed.

Lemma strip_id s : trimmed s = true -> strip s = s.
Proof.
  unfold trimmed, strip. intros [Hs He]%andb_true_iff.
  by rewrite (lstrip_id _ Hs), (rstrip_id _ He).
Qed.

Lemma strip_nil : strip [] = [].
Proof. reflexivity. Qed.

Lemma strip_idemp s : strip (strip s) = strip s.
Proof.
  destruct (strip_trimmed s) as [->|H]; [done | by apply strip_id].
Qed.

Lemma trimmed_nonempty s : trimmed s = true -> s <> [].
Proof. by destruct s. Qed.

Lemma strip_plain s : plain s -> plain (strip s).
Proof.
  unfold plain, strip, rstrip, lstrip. intros H.
  apply Forall_rev, Forall_dropwhile, Forall_rev, Forall_dropwhile, H.
Qed.

Lemma starts_ok_app s t : starts_ok s = true -> starts_ok (s ++ t) = true.
Proof. by destruct s. Qed.

Lemma ends_ok_app s t : ends_ok t = true -> ends_ok (s ++ t) = true.
Proof.
  unfold ends_ok. rewrite rev_app_distr. apply starts_ok_app.
Qed.

(** ** Joining and splitting lines *)

Lemma join_cons2 {A} (sep x y : list A) l :
  join sep (x :: y :: l) = x ++ sep ++ join sep (y :: l).
Proof. reflexivity. Qed.

Lemma join_snoc {A} (sep : list A) l x :
  l <> [] -> join sep (l ++ [x]) = join sep l ++ sep ++ x.
Proof.
  induction l as [|y l IH]; [done|]. intros _.
  destruct l as [|z l]; [done|].
  change ((y :: z :: l) ++ [x]) with (y :: z :: (l ++ [x])).
  rewrite !join_cons2. change (z :: l ++ [x]) with ((z :: l) ++ [x]).
  rewrite IH by done. by rewrite <- !app_assoc.
Qed.

Lemma splitlines_from_plain_app x cur s :
  plain x -> splitlines_from cur (x ++ s) = splitlines_from (rev x ++ cur) s.
Proof.
  intros Hx. revert cur. induction Hx as [|c x Hc Hx IH]; intros cur; [done|].
  simpl. rewrite Hc, IH. by rewrite <- app_assoc.
Qed.

Lemma splitlines_from_LF cur s :
  s <> [] -> splitlines_from cur (LF :: s) = rev cur :: splitlines_from [] s.
Proof. destruct s; [done|]. reflexivity. Qed.

Lemma join_LF_nonempty (l : list str) :
  l <> [] -> last l <> Some [] -> join [LF] l <> [].
Proof.
  destruct l as [|x [|y l]]; [done| |].
  - simpl. by intros _ H ->.
  - intros _ _. rewrite join_cons2. by destruct x.
Qed.

(** Lines without line boundary are found again after joining them with
    line feeds, provided the last one is not empty. *)
Lemma splitlines_join (l : list str) :
  Forall plain l -> last l <> Some [] -> splitlines (join [LF] l) = l.
Proof.
  unfold splitlines. induction 1 as [|x l Hx Hl IH]; intros Hlast; [done|].
  destruct l as [|y l].
  - pose proof (splitlines_from_plain_app x [] [] Hx) as E.
    rewrite !app_nil_r in E. cbn [join]. rewrite E. cbn [splitlines_from].
    destruct (rev x) eqn:Hr.
    + exfalso. apply Hlast. cbn [last]. f_equal.
      by rewrite <- (rev_involutive x), Hr.
    + by rewrite <- Hr, rev_involutive.
  - rewrite join_cons2, (splitlines_from_plain_app x [] _ Hx), app_nil_r.
    change ([LF] ++ join [LF] (y :: l)) with (LF :: join [LF] (y :: l)).
    rewrite splitlines_from_LF by (by apply join_LF_nonempty).
    rewrite rev_involutive. f_equal. by apply IH.
Qed.

Lemma splitlines_from_plain n : forall s cur,
  (length s <= n)%nat -> plain cur -> Forall plain (splitlines_from cur s).
Proof.
  induction n as [|n IH]; intros s cur Hn Hcur.
  - destruct s; [|simpl in Hn; lia]. simpl.
    destruct cur; [constructor|]. repeat constructor. by apply Forall_rev.
  - destruct s as [|c rest]; simpl.
    + destruct cur; [constructor|]. repeat constructor. by apply Forall_rev.
    + simpl in Hn. destruct (is_linebreak c) eqn:Hc.
      * destruct rest as [|c' rest'].
        { repeat constructor. by apply Forall_rev. }
        simpl in Hn.
        destruct ((c =? CR) && (c' =? LF)); constructor;
          try (by apply Forall_rev); apply IH; simpl; try lia; constructor.
      * apply IH; [lia|]. by constructor.
Qed.

Lemma splitlines_plain s : Forall plain (splitlines s).
Proof. apply (splitlines_from_plain (length s)); [lia | constructor]. Qed.

(** * The cleaning loop *)

Lemma nonempty_app {A} (l : list A) x : nonempty (l ++ [x]) = true.
Proof. by destruct l. Qed.

Lemma clean_loop_collapse lines st :
  clean_loop st lines =
    {| cleaned := cleaned st
                  ++ collapse (nonempty (cleaned st)) (previous_blank st) lines;
       previous_blank :=
         match lines with
         | [] => previous_blank st
         | _ => negb (nonempty (strip (List.last lines [])))
         end |}.
Proof.
  unfold clean_loop. revert st. induction lines as [|line rest IH]; intros st.
  - simpl. destruct st. simpl. by rewrite app_nil_r.
  - cbn [foldl]. rewrite IH. unfold clean_step. cbn [collapse].
    destruct (strip line) as [|c t] eqn:Hs; cbn [nonempty].
    + f_equal.
      * cbn [cleaned previous_blank].
        destruct (nonempty (cleaned st)) eqn:Hne, (previous_blank st);
          cbn [andb negb]; rewrite ?nonempty_app, ?Hne, <- ?app_assoc; done.
      * cbn [previous_blank]. destruct rest; [|done]. simpl. by rewrite Hs.
    + f_equal.
      * cbn [cleaned previous_blank]. by rewrite nonempty_app, <- app_assoc.
      * cbn [previous_blank]. destruct rest; [|done]. simpl. by rewrite Hs.
Qed.

Lemma clean_lines_collapse lines : clean_lines lines = collapse false false lines.
Proof. unfold clean_lines. by rewrite clean_loop_collapse. Qed.

Lemma collapse_gaps_ok lines : forall started pb,
  gaps_ok (negb started || pb) (collapse started pb lines) = true.
Proof.
  induction lines as [|line rest IH]; intros started pb; [done|].
  cbn [collapse]. destruct (strip_trimmed line) as [->|Ht].
  - destruct started, pb; cbn [andb negb orb gaps_ok];
      try apply (IH true true); apply (IH false true).
  - destruct (strip line) as [|c t] eqn:Hs; [done|].
    cbn [gaps_ok]. apply (IH true false).
Qed.

Lemma collapse_line_ok lines : forall started pb,
  Forall line_ok (collapse started pb lines).
Proof.
  induction lines as [|line rest IH]; intros started pb; [constructor|].
  cbn [collapse]. pose proof (strip_trimmed line) as Ht.
  destruct (strip line) as [|c t] eqn:Hs.
  - destruct (started && negb pb); [constructor|]; try by apply IH.
    by left.
  - constructor; [|by apply IH]. right. by destruct Ht.
Qed.

Lemma collapse_plain lines : forall started pb,
  Forall plain lines -> Forall plain (collapse started pb lines).
Proof.
  induction lines as [|line rest IH]; intros started pb Hp; [constructor|].
  apply Forall_cons in Hp as [Hl Hr]. cbn [collapse].
  pose proof (strip_plain _ Hl) as Hsp.
  destruct (strip line) as [|c t] eqn:Hs.
  - destruct (started && negb pb); [constructor|]; try by apply IH.
    constructor.
  - constructor; [done | by apply IH].
Qed.

(** A list of result lines is left as it is by the loop. *)
Lemma collapse_fixed l : forall started pb,
  gaps_ok (negb started || pb) l = true -> Forall line_ok l ->
  collapse started pb l = l.
Proof.
  induction l as [|x l IH]; intros started pb Hg Hl; [done|].
  apply Forall_cons in Hl as [Hx Hl]. cbn [collapse].
  destruct Hx as [->|Hx].
  - rewrite strip_nil. cbn [gaps_ok] in Hg.
    apply andb_true_iff in Hg as [Hb Hg].
    destruct started, pb; try done. cbn [andb negb]. f_equal. by apply IH.
  - rewrite (strip_id _ Hx). destruct x as [|c t]; [done|].
    f_equal. by apply IH.
Qed.

Lemma gaps_ok_app l1 : forall b l2,
  gaps_ok b (l1 ++ l2) =
    gaps_ok b l1
    && gaps_ok (match last l1 with
                | None => b
                | Some x => negb (nonempty x)
                end) l2.
Proof.
  induction l1 as [|x l1 IH]; intros b l2; [done|].
  change ((x :: l1) ++ l2) with (x :: (l1 ++ l2)). cbn [gaps_ok].
  assert (Hlast : forall y : str,
            match last (y :: l1) with
            | None => b
            | Some z => negb (nonempty z)
            end
            = match last l1 with
              | None => negb (nonempty y)
              | Some z => negb (nonempty z)
              end).
  { intros y. destruct l1 as [|z l]; [done|].
    change (last (y :: z :: l)) with (last (z :: l)).
    destruct (last (z :: l)) eqn:E; [done|]. by apply last_None in E. }
  rewrite Hlast. destruct x as [|c t]; rewrite IH.
  - by rewrite andb_assoc.
  - done.
Qed.

Lemma gaps_ok_head l : gaps_ok true l = true -> head l <> Some [].
Proof. destruct l as [|[|c t] l]; done. Qed.

Lemma gaps_ok_lookup l : forall b i,
  gaps_ok b l = true -> l !! i = Some [] -> l !! S i <> Some [].
Proof.
  induction l as [|x l IH]; intros b i Hg Hi; [done|].
  destruct i as [|i].
  - simpl in Hi. injection Hi as ->. cbn [gaps_ok] in Hg.
    apply andb_true_iff in Hg as [_ Hg]. simpl.
    destruct l as [|[|c t] l]; done.
  - simpl in Hi. change ((x :: l) !! S (S i)) with (l !! S i).
    destruct x; cbn [gaps_ok] in Hg.
    + apply andb_true_iff in Hg as [_ Hg]. by apply (IH true).
    + by apply (IH false).
Qed.

Lemma join_starts sep x l :
  starts_ok x = true -> starts_ok (join sep (x :: l)) = true.
Proof.
  intros Hx. destruct l; [done|]. rewrite join_cons2. by apply starts_ok_app.
Qed.

Lemma join_ends sep l x :
  ends_ok x = true -> ends_ok (join sep (l ++ [x])) = true.
Proof.
  intros Hx. destruct l as [|y l]; [done|].
  rewrite join_snoc by done. rewrite app_assoc. by apply ends_ok_app.
Qed.

Lemma head_trimmed x l :
  gaps_ok true (x :: l) = true -> line_ok x -> trimmed x = true.
Proof. intros Hg [->|Hx]; [done | done]. Qed.

Lemma strip_join_id c :
  gaps_ok true c = true -> Forall line_ok c -> last c <> Some [] ->
  strip (join [LF] c) = join [LF] c.
Proof.
  intros Hg Hl Hlast. destruct c as [|y l]; [done|].
  apply strip_id. unfold trimmed. apply andb_true_iff. split.
  - apply join_starts.
    pose proof (head_trimmed y l Hg (Forall_inv Hl)) as Hy.
    by apply andb_true_iff in Hy as [? _].
  - destruct (last (y :: l)) as [z|] eqn:E; [|by apply last_None in E].
    apply last_Some in E as [l' E]. rewrite E in *.
    apply join_ends. apply Forall_app in Hl as [_ Hz]. apply Forall_inv in Hz.
    destruct Hz as [->|Hz]; [done|].
    by apply andb_true_iff in Hz as [_ ?].
Qed.

(** The final [strip] removes one trailing empty line, if any, and nothing
    else. *)
Lemma strip_join_lines c :
  gaps_ok true c = true -> Forall line_ok c ->
  exists F, strip (join [LF] c) = join [LF] F
            /\ (c = F \/ c = F ++ [[]])
            /\ last F <> Some [].
Proof.
  intros Hg Hl. destruct (decide (last c = Some [])) as [Hlast|Hlast].
  - apply last_Some in Hlast as [c' ->]. exists c'.
    rewrite gaps_ok_app in Hg. apply andb_true_iff in Hg as [Hg' Hx].
    apply Forall_app in Hl as [Hl' _].
    assert (Hlast : last c' <> Some []) by (intros E; by rewrite E in Hx).
    destruct c' as [|y l]; [done|].
    repeat split; [|by right|done].
    rewrite join_snoc by done. rewrite app_nil_r.
    pose proof (strip_join_id _ Hg' Hl' Hlast) as Hid.
    remember (join [LF] (y :: l)) as t. unfold strip in *.
    assert (Hs : starts_ok t = true).
    { rewrite Heqt. apply join_starts.
      pose proof (head_trimmed y l Hg' (Forall_inv Hl')) as Hy.
      by apply andb_true_iff in Hy as [? _]. }
    rewrite (lstrip_id _ (starts_ok_app _ _ Hs)).
    rewrite rstrip_snoc, LF_is_space.
    by rewrite (lstrip_id _ Hs) in Hid.
  - exists c. repeat split; [|by left|done]. by apply strip_join_id.
Qed.

(** The lines of the text that [normalize_text] returns. *)
Lemma normalize_text_lines raw :
  exists F, normalize_text raw = join [LF] F
            /\ splitlines (normalize_text raw) = F
            /\ (clean_lines (splitlines raw) = F
                \/ clean_lines (splitlines raw) = F ++ [[]])
            /\ gaps_ok true F = true
            /\ Forall line_ok F
            /\ Forall plain F
            /\ last F <> Some [].
Proof.
  unfold normalize_text. rewrite clean_lines_collapse.
  pose proof (collapse_gaps_ok (splitlines raw) false false) as Hg.
  pose proof (collapse_line_ok (splitlines raw) false false) as Hl.
  pose proof (collapse_plain (splitlines raw) false false
                (splitlines_plain raw)) as Hp.
  simpl in Hg.
  destruct (strip_join_lines _ Hg Hl) as (F & HF & Hc & Hlast).
  assert (HgF : gaps_ok true F = true /\ Forall line_ok F /\ Forall plain F).
  { destruct Hc as [<-|Hc]; [done|]. rewrite Hc in Hg, Hl, Hp.
    rewrite gaps_ok_app in Hg. apply andb_true_iff in Hg as [? _].
    apply Forall_app in Hl as [? _]. by apply Forall_app in Hp as [? _]. }
  destruct HgF as (HgF & HlF & HpF).
  exists F. rewrite HF. repeat split; try done.
  by apply splitlines_join.
Qed.

(** ** Runs of blank lines *)

Lemma clean_loop_app st a b :
  clean_loop st (a ++ b) = clean_loop (clean_loop st a) b.
Proof. apply foldl_app. Qed.

Lemma clean_step_blank st line :
  strip line = [] -> clean_step st line = clean_step st [].
Proof. unfold clean_step. intros ->. by rewrite strip_nil. Qed.

Lemma clean_step_blank_again st line :
  strip line = [] -> previous_blank st = true -> clean_step st line = st.
Proof.
  unfold clean_step. intros -> Hp. destruct st as [c pb]. simpl in *.
  rewrite Hp, andb_false_r. done.
Qed.

(** A run of blank lines leaves the loop in the state that one empty line
    leaves it in. *)
Lemma clean_loop_blank_run st run :
  run <> [] -> Forall (fun l => strip l = []) run ->
  clean_loop st run = clean_step st [].
Proof.
  destruct run as [|x run]; [done|]. intros _ Hrun.
  apply Forall_cons in Hrun as [Hx Hrun].
  unfold clean_loop. cbn [foldl]. rewrite (clean_step_blank st x Hx).
  assert (Hp : previous_blank (clean_step st []) = true) by done.
  induction Hrun as [|y run Hy Hrun IH]; [done|].
  cbn [foldl]. by rewrite (clean_step_blank_again _ y Hy Hp).
Qed.

Lemma clean_lines_blank_run pre run post :
  run <> [] -> Forall (fun l => strip l = []) run ->
  clean_lines (pre ++ run ++ post) = clean_lines (pre ++ [] :: post).
Proof.
  intros Hne Hrun. unfold clean_lines.
  rewrite !clean_loop_app, (clean_loop_blank_run _ run Hne Hrun).
  change ([] :: post) with ([[]] ++ post). by rewrite clean_loop_app.
Qed.

Lemma clean_lines_blank_run_end pre run :
  run <> [] -> Forall (fun l => strip l = []) run ->
  clean_lines (pre ++ run) = clean_lines pre
  \/ clean_lines (pre ++ run) = clean_lines pre ++ [[]].
Proof.
  intros Hne Hrun. unfold clean_lines.
  rewrite clean_loop_app, (clean_loop_blank_run _ run Hne Hrun).
  unfold clean_step. rewrite strip_nil. cbn [nonempty cleaned].
  destruct (nonempty _ && negb _); [by right | by left].
Qed.

(** The loop keeps the text lines, stripped, in their order. *)
Lemma collapse_text_lines lines : forall started pb,
  filter (fun l => l <> []) (collapse started pb lines)
  = filter (fun l => l <> []) (strip <$> lines).
Proof.
  induction lines as [|line rest IH]; intros started pb; [done|].
  cbn [collapse]. rewrite fmap_cons.
  destruct (strip line) as [|c t] eqn:Hs.
  - rewrite (filter_cons_False _ [] (strip <$> rest)) by (by intros H).
    destruct (started && negb pb); [|by apply IH].
    rewrite filter_cons_False by (by intros H). apply IH.
  - rewrite !filter_cons_True by done. f_equal. apply IH.
Qed.

(** * The normalizer *)

(** C2. The lines of the text returned by the normalizer, joined by line
    feeds, are that text, and the text has no white space at either end.
    The first line is not empty, the last line is not empty, and no empty
    line is followed by an empty line. The lines that are not empty are the
    stripped raw lines that are not blank, in their order. For the cleaning
    loop a run of one or more blank raw lines counts as a single empty
    line, and when it ends the input it adds at most one empty line. *)
Theorem normalized_text_gaps (sp : soup) :
  let raw_lines := splitlines (get_text [LF] (set_spacers sp)) in
  let text := clean_text_preserving_gaps sp in
  let lines := splitlines text in
  text = join [LF] lines
  /\ strip text = text
  /\ head lines <> Some []
  /\ last lines <> Some []
  /\ (forall i, lines !! i = Some [] -> lines !! S i <> Some [])
  /\ filter (fun l => l <> []) lines
     = filter (fun l => l <> []) (strip <$> raw_lines)
  /\ (forall pre run post,
        run <> [] -> Forall (fun l => strip l = []) run ->
        clean_lines (pre ++ run ++ post) = clean_lines (pre ++ [] :: post)
        /\ (clean_lines (pre ++ run) = clean_lines pre
            \/ clean_lines (pre ++ run) = clean_lines pre ++ [[]])).
Proof.
  intros raw_lines text lines. unfold lines, text, clean_text_preserving_gaps.
  destruct (normalize_text_lines (get_text [LF] (set_spacers sp)))
    as (F & HF & Hsplit & Hc & Hg & Hl & Hp & Hlast).
  rewrite Hsplit. repeat split.
  - done.
  - unfold normalize_text. apply strip_idemp.
  - by apply gaps_ok_head.
  - done.
  - intros i. by apply (gaps_ok_lookup F true).
  - unfold raw_lines. rewrite <- (collapse_text_lines _ false false).
    rewrite <- clean_lines_collapse.
    destruct Hc as [->| ->]; [done|].
    rewrite filter_app, filter_cons_False by (by intros H).
    by rewrite filter_nil, app_nil_r.
  - by apply clean_lines_blank_run.
  - by apply clean_lines_blank_run_end.
Qed.

Lemma normalized_text_gaps_witness :
  [u " "; [9; 160]] <> []
  /\ Forall (fun l => strip l = []) [u " "; [9; 160]]
  /\ clean_lines ([u "a"] ++ [u " "; [9; 160]] ++ [u "b"])
     = clean_lines ([u "a"] ++ [] :: [u "b"])
  /\ splitlines (clean_text_preserving_gaps hello_world)
     = [u "Hello"; []; u "World"].
Proof.
  assert (Hne : [u " "; [9; 160]] <> []) by discriminate.
  assert (Hrun : Forall (fun l => strip l = []) [u " "; [9; 160]])
    by (repeat constructor).
  destruct (normalized_text_gaps hello_world)
    as (_ & _ & _ & _ & _ & _ & Hruns).
  split; [exact Hne|]. split; [exact Hrun|]. split.
  - exact (proj1 (Hruns [u "a"] [u " "; [9; 160]] [u "b"] Hne Hrun)).
  - vm_compute. reflexivity.
Defined.

(** C3. The cleaning loop returns its own output unchanged, and so does the
    whole normalization of a text: splitting the returned text into lines,
    cleaning them, joining and stripping gives the returned text again. *)
Theorem normalization_idempotent :
  (forall lines, clean_lines (clean_lines lines) = clean_lines lines)
  /\ (forall raw_text,
        normalize_text (normalize_text raw_text) = normalize_text raw_text)
  /\ (forall sp,
        normalize_text (clean_text_preserving_gaps sp)
        = clean_text_preserving_gaps sp).
Proof.
  assert (Htext : forall raw_text,
            normalize_text (normalize_text raw_text) = normalize_text raw_text).
  { intros raw. destruct (normalize_text_lines raw)
      as (F & HF & Hsplit & _ & Hg & Hl & _ & Hlast).
    unfold normalize_text at 1. rewrite Hsplit, clean_lines_collapse.
    rewrite (collapse_fixed F false false Hg Hl), HF.
    by apply strip_join_id. }
  split; [|split]; [|done|].
  - intros lines. rewrite !clean_lines_collapse.
    apply collapse_fixed; [apply (collapse_gaps_ok lines false false)|].
    apply collapse_line_ok.
  - intros sp. apply Htext.
Qed.

(** C5. For the tree of
    [<p>Hello</p><div class="empty-line"></div><p>World</p>]
    the normalizer returns [Hello], an empty line and [World]. *)
Theorem hello_world_normalized :
  clean_text_preserving_gaps hello_world = u "Hello" ++ [LF; LF] ++ u "World".
Proof. vm_compute. reflexivity. Qed.

(** * Conversion of a book *)

Lemma join_app {A} (sep : list A) a b :
  a <> [] -> b <> [] -> join sep (a ++ b) = join sep a ++ sep ++ join sep b.
Proof.
  intros Ha Hb. induction a as [|x a IH]; [done|].
  destruct a as [|y a].
  - destruct b; [done|]. reflexivity.
  - change ((x :: y :: a) ++ b) with (x :: y :: (a ++ b)).
    rewrite !join_cons2. change (y :: a ++ b) with ((y :: a) ++ b).
    rewrite IH by done. by rewrite <- !app_assoc.
Qed.

Lemma join_first_nonempty {A} (sep x : list A) l :
  x <> [] -> join sep (x :: l) <> [].
Proof. destruct l; [done|]. rewrite join_cons2. by destruct x. Qed.

Lemma Forall_join {A} (P : A -> Prop) sep parts :
  Forall P sep -> Forall (Forall P) parts -> Forall P (join sep parts).
Proof.
  intros Hsep. induction 1 as [|x l Hx Hl IH]; [constructor|].
  destruct l; [done|]. rewrite join_cons2.
  apply Forall_app. split; [done|]. by apply Forall_app.
Qed.

Lemma last_join {A} (sep : list A) parts F :
  F <> [] -> last (join sep (parts ++ [F])) = last F.
Proof.
  intros HF. destruct parts as [|p parts]; [done|].
  rewrite join_snoc by done. rewrite app_assoc.
  destruct F as [|z F] using rev_ind; [done|].
  by rewrite app_assoc, !last_snoc.
Qed.

(** Blocks of lines joined by two line feeds are the lines of all blocks
    with one empty line between two blocks. *)
Lemma join_blocks (Fs : list (list str)) :
  Forall (fun F => F <> []) Fs ->
  join [LF; LF] (join [LF] <$> Fs) = join [LF] (join [[]] Fs).
Proof.
  induction 1 as [|F Fs HF HFs IH]; [done|].
  destruct Fs as [|G Fs]; [done|].
  rewrite !fmap_cons, join_cons2, <- fmap_cons, IH, join_cons2.
  apply Forall_cons in HFs as [HG _].
  pose proof (join_first_nonempty [[]] G Fs HG) as HR.
  rewrite join_app by done.
  change ([[]] ++ join [[]] (G :: Fs)) with ([] :: join [[]] (G :: Fs)).
  destruct (join [[]] (G :: Fs)) as [|r R] eqn:E; [done|].
  by rewrite join_cons2.
Qed.

Lemma lines_of_blocks (blocks : list str) :
  Forall (fun b => exists raw_text, b = normalize_text raw_text) blocks ->
  Forall (fun b => b <> []) blocks ->
  splitlines (join [LF; LF] blocks) = join [[]] (splitlines <$> blocks).
Proof.
  intros Hnorm Hne.
  assert (Hb : blocks = join [LF] <$> (splitlines <$> blocks)).
  { clear Hne. induction Hnorm as [|b l [raw ->] _ IH]; [done|].
    rewrite !fmap_cons, <- IH. f_equal.
    by destruct (normalize_text_lines raw) as (F & HF & -> & _). }
  assert (HF : Forall (fun F => F <> [] /\ Forall plain F /\ last F <> Some [])
                 (splitlines <$> blocks)).
  { clear Hb. induction Hnorm as [|b l [raw ->] _ IH]; [constructor|].
    apply Forall_cons in Hne as [Hb Hne]. rewrite fmap_cons.
    constructor; [|by apply IH].
    destruct (normalize_text_lines raw)
      as (F & HF & HS & _ & _ & _ & Hp & Hlast).
    rewrite HS. repeat split; try done. intros ->. by rewrite HF in Hb. }
  rewrite Hb at 1. rewrite join_blocks by (eapply Forall_impl; [exact HF|]; naive_solver).
  remember (splitlines <$> blocks) as Fs. clear HeqFs Hb Hnorm Hne.
  apply splitlines_join.
  - apply Forall_join; [repeat constructor|].
    eapply Forall_impl; [exact HF|]. naive_solver.
  - destruct Fs as [|F0 Fs0] eqn:E using rev_ind; [done|].
    apply Forall_app in HF as [_ HF]. apply Forall_inv in HF as (Hne & _ & Hl).
    by rewrite last_join.
Qed.

Section Book_text.

Variable BeautifulSoup : str -> soup.

Lemma foldl_append_text acc l :
foldl (append_text BeautifulSoup) acc l
= acc ++ ((fun item =>
             clean_text_preserving_gaps (BeautifulSoup (item_content item)))
          <$> l).
Proof.
revert acc. induction l as [|x l IH]; intros acc; simpl.
- by rewrite app_nil_r.
- rewrite IH. unfold append_text. by rewrite <- app_assoc.
Qed.

Lemma book_text_join book :
book_text BeautifulSoup book
= join [LF; LF]
    ((fun item =>
        clean_text_preserving_gaps (BeautifulSoup (item_content item)))
     <$> iter_documents_in_order book).
Proof. unfold book_text. by rewrite foldl_append_text. Qed.

End Book_text.

(** C6, as amended. When the EPUB at [epub_path] is read as [book] and
    [txt_path] is opened for writing, [epub_to_txt] writes to [txt_path]
    the normalized texts of the resolved items, in resolved order, joined
    by two line feeds, and prints one line. When no block is empty, the
    lines of the written text are the lines of the blocks with exactly one
    empty line between two consecutive blocks. *)
Theorem epub_to_txt_writes (BeautifulSoup : str -> soup) (fs : filesystem)
    (epub_path txt_path : str) (book : Book) (w : world) :
  read_epub fs epub_path = Some book ->
  open_fails fs txt_path = false ->
  let blocks :=
    (fun item => clean_text_preserving_gaps (BeautifulSoup (item_content item)))
    <$> iter_documents_in_order book in
  let text := join [LF; LF] blocks in
  epub_to_txt BeautifulSoup fs epub_path txt_path w
  = (inr tt,
     {| files := <[txt_path := text]> (files w);
        stdout := stdout w ++ [converted_message epub_path txt_path];
        made_dirs := made_dirs w |})
  /\ (Forall (fun b => b <> []) blocks -> one_empty_line_between blocks).
Proof.
  intros Hread Hopen blocks text. split.
  - unfold epub_to_txt, mbind, io_bind, write_text. rewrite Hread.
    unfold mret, io_ret. cbv beta iota. rewrite Hopen.
    unfold text, blocks. by rewrite <- book_text_join.
  - apply lines_of_blocks. unfold blocks.
    apply Forall_fmap, Forall_forall. intros item _. simpl.
    unfold clean_text_preserving_gaps. eauto.
Qed.

Lemma epub_to_txt_writes_witness :
  read_epub fs_batch (u "in/b.epub") = Some book_ABC
  /\ open_fails fs_batch (u "out/b.txt") = false
  /\ epub_to_txt text_parser fs_batch (u "in/b.epub") (u "out/b.txt") world0
     = (inr tt,
        {| files := {[ u "out/b.txt" :=
                       u "<p>a</p>" ++ [LF; LF] ++ u "<p>b</p>"
                       ++ [LF; LF] ++ u "<p>c</p>" ]};
           stdout := [converted_message (u "in/b.epub") (u "out/b.txt")];
           made_dirs := ∅ |})
  /\ splitlines (u "<p>a</p>" ++ [LF; LF] ++ u "<p>b</p>"
                 ++ [LF; LF] ++ u "<p>c</p>")
     = [u "<p>a</p>"; []; u "<p>b</p>"; []; u "<p>c</p>"].
Proof.
  assert (Hread : read_epub fs_batch (u "in/b.epub") = Some book_ABC)
    by reflexivity.
  assert (Hopen : open_fails fs_batch (u "out/b.txt") = false) by reflexivity.
  destruct (epub_to_txt_writes text_parser fs_batch (u "in/b.epub")
              (u "out/b.txt") book_ABC world0 Hread Hopen) as [Hrun Hlines].
  split; [exact Hread|]. split; [exact Hopen|]. split.
  - rewrite Hrun. vm_compute. reflexivity.
  - assert (Hne : Forall (fun b : str => b <> [])
              ((fun item => clean_text_preserving_gaps
                              (text_parser (item_content item)))
               <$> iter_documents_in_order book_ABC))
      by (vm_compute; repeat constructor; discriminate).
    specialize (Hlines Hne). unfold one_empty_line_between in Hlines.
    vm_compute in Hlines. vm_compute. exact Hlines.
Defined.

(** C6 as stated fails: a document of white space only gives an empty
    block, and the text written for the blocks [a], empty, [b] has three
    empty lines between [a] and [b]. *)
Lemma blank_block_adds_empty_lines :
  read_epub fs_blank (u "in.epub") = Some book_blank
  /\ files (epub_to_txt text_parser fs_blank (u "in.epub") (u "out.txt")
              world0).2 !! u "out.txt"
     = Some (u "a" ++ [LF; LF; LF; LF] ++ u "b")
  /\ splitlines (u "a" ++ [LF; LF; LF; LF] ++ u "b")
     = [u "a"; []; []; []; u "b"]
  /\ ~ one_empty_line_between
         ((fun item =>
             clean_text_preserving_gaps (text_parser (item_content item)))
          <$> iter_documents_in_order book_blank).
Proof.
  split; [reflexivity|]. split; [vm_compute; reflexivity|].
  split; [vm_compute; reflexivity|].
  unfold one_empty_line_between. vm_compute. discriminate.
Qed.

(** * Batch mode *)

(** ** The order of paths *)

Lemma str_leb_refl a : str_leb a a = true.
Proof. induction a as [|x a IH]; [done|]. simpl. by rewrite N.ltb_irrefl. Qed.

Lemma str_leb_total a : forall b, str_leb a b = true \/ str_leb b a = true.
Proof.
  induction a as [|x a IH]; intros [|y b]; simpl; auto.
  destruct (N.ltb_spec x y), (N.ltb_spec y x); auto; lia.
Qed.

Lemma str_leb_trans a : forall b c,
  str_leb a b = true -> str_leb b c = true -> str_leb a c = true.
Proof.
  induction a as [|x a IH]; intros [|y b] [|z c]; simpl; try done.
  destruct (N.ltb_spec x y), (N.ltb_spec y x), (N.ltb_spec y z),
    (N.ltb_spec z y), (N.ltb_spec x z), (N.ltb_spec z x);
    try done; try lia. apply IH.
Qed.

Lemma str_leb_app pre a b : str_leb (pre ++ a) (pre ++ b) = str_leb a b.
Proof.
  induction pre as [|x pre IH]; [done|]. simpl. by rewrite N.ltb_irrefl.
Qed.

Global Instance path_le_total : Total path_le.
Proof.
  intros p q. unfold path_le.
  destruct (str_leb_total (str_of_path p) (str_of_path q)) as [->| ->]; auto.
Qed.

Global Instance path_le_trans : Transitive path_le.
Proof.
  intros p q r. unfold path_le. rewrite !Is_true_true. apply str_leb_trans.
Qed.

Lemma str_of_path_div dir n :
  n <> [] -> str_of_path (path_div dir n) = dir_prefix dir ++ n.
Proof.
  intros Hn. unfold str_of_path, path_div, dir_prefix. cbn [root parts].
  destruct (parts dir) as [|c l] eqn:E.
  - cbn [app join]. destruct (root dir ++ n) eqn:E'; [|done].
    apply app_eq_nil in E' as [_ ?]. done.
  - rewrite join_snoc by done.
    destruct (root dir ++ join [SEP] (c :: l) ++ [SEP] ++ n) eqn:E'.
    + apply app_eq_nil in E' as [_ E']. apply app_eq_nil in E' as [_ E'].
      done.
    + by rewrite <- !app_assoc.
Qed.

Lemma name_path_div dir n : name (path_div dir n) = n.
Proof. unfold name, path_div. cbn [parts]. by rewrite last_snoc. Qed.

Lemma path_le_same_parent dir a b :
  a <> [] -> b <> [] ->
  path_le (path_div dir a) (path_div dir b) <-> str_leb a b = true.
Proof.
  intros Ha Hb. unfold path_le. rewrite !str_of_path_div by done.
  by rewrite str_leb_app, Is_true_true.
Qed.

(** ** Stem and suffix *)

Lemma name_stem_suffix p : name p = stem p ++ suffix p.
Proof.
  unfold stem, suffix. destruct (has_suffix (name p)).
  - by rewrite take_drop.
  - by rewrite app_nil_r.
Qed.

Lemma rfind_from_app c a : forall b i found,
  rfind_from c (a ++ b) i found
  = rfind_from c b (i + Z.of_nat (length a))%Z (rfind_from c a i found).
Proof.
  induction a as [|x a IH]; intros b i found; simpl.
  - by rewrite Z.add_0_r.
  - rewrite IH. f_equal. lia.
Qed.

Lemma rfind_from_absent c b : forall i found,
  Forall (fun x => x <> c) b -> rfind_from c b i found = found.
Proof.
  induction b as [|x b IH]; intros i found Hb; [done|].
  apply Forall_cons in Hb as [Hx Hb]. simpl. rewrite IH by done.
  by apply N.eqb_neq in Hx as ->.
Qed.

Lemma lower_char_dot c : lower_char c = DOT -> c = DOT.
Proof.
  unfold lower_char, DOT.
  destruct (N.leb_spec 65 c), (N.leb_spec c 90); simpl; lia.
Qed.

(** An extension that reads [.epub] when lowered is a dot followed by four
    characters that are not dots. *)
Lemma epub_extension_shape ext :
  lower ext = u ".epub" ->
  exists rest, ext = DOT :: rest /\ length rest = 4%nat
               /\ Forall (fun x => x <> DOT) rest.
Proof.
  destruct ext as [|c0 [|c1 [|c2 [|c3 [|c4 [|c5 ext]]]]]]; try done.
  intros [= H0 H1 H2 H3 H4]. apply lower_char_dot in H0 as ->.
  exists [c1; c2; c3; c4]. repeat split.
  repeat constructor; intros ->; done.
Qed.

Lemma stem_of_epub_name dir s ext :
  s <> [] -> lower ext = u ".epub" ->
  stem (path_div dir (s ++ ext)) = s /\ suffix (path_div dir (s ++ ext)) = ext.
Proof.
  intros Hs (rest & -> & Hlen & Hrest)%epub_extension_shape.
  assert (Hr : rfind DOT (s ++ DOT :: rest) = Z.of_nat (length s)).
  { unfold rfind. rewrite rfind_from_app. cbn [rfind_from].
    rewrite N.eqb_refl, rfind_from_absent by done. lia. }
  assert (Hh : has_suffix (s ++ DOT :: rest) = true).
  { unfold has_suffix. rewrite Hr, length_app. simpl. rewrite Hlen.
    destruct s; [done|]. simpl length.
    apply andb_true_iff. split; [apply Z.ltb_lt | apply Z.ltb_lt]; lia. }
  unfold stem, suffix. rewrite name_path_div, Hh, Hr, Nat2Z.id.
  by rewrite take_app_length, drop_app_length.
Qed.

Lemma target_inj output_dir p q :
  str_of_path (target_txt output_dir p) = str_of_path (target_txt output_dir q)
  <-> stem p = stem q.
Proof.
  unfold target_txt. split.
  - rewrite !str_of_path_div by (by destruct (stem _)).
    intros H. apply app_inv_head in H. by apply app_inv_tail in H.
  - by intros ->.
Qed.

(** ** The selection *)

Lemma epub_files_Permutation fs input_dir :
  epub_files fs input_dir ≡ₚ List.filter (is_epub fs) (entries fs input_dir).
Proof. unfold epub_files, sorted. apply merge_sort_Permutation. Qed.

Lemma epub_files_elem_of fs input_dir p :
  p ∈ epub_files fs input_dir
  <-> p ∈ entries fs input_dir
      /\ is_file fs p = true /\ lower (suffix p) = u ".epub".
Proof.
  rewrite epub_files_Permutation, list_elem_of_In, filter_In.
  rewrite <- list_elem_of_In. unfold is_epub.
  rewrite andb_true_iff, bool_decide_eq_true. done.
Qed.

(** A selected path is the input directory followed by a name that is not
    empty. *)
Lemma epub_files_child fs input_dir p :
  p ∈ epub_files fs input_dir ->
  p = path_div input_dir (name p) /\ name p <> [].
Proof.
  intros (Hp & _ & Hext)%epub_files_elem_of. unfold entries in Hp.
  apply list_elem_of_In, in_map_iff in Hp as (n & <- & _).
  rewrite name_path_div. split; [done|]. intros ->.
  unfold suffix in Hext. rewrite name_path_div in Hext. done.
Qed.

Lemma epub_files_sorted fs input_dir :
  StronglySorted (fun p q => str_leb (name p) (name q) = true)
                 (epub_files fs input_dir).
Proof.
  assert (H : StronglySorted path_le (epub_files fs input_dir))
    by (unfold epub_files, sorted; apply StronglySorted_merge_sort; apply _).
  assert (Hch : Forall (fun p => p = path_div input_dir (name p)
                                 /\ name p <> [])
                  (epub_files fs input_dir)).
  { apply Forall_forall. intros p. apply epub_files_child. }
  induction H as [|p l Hl IH Hp]; [constructor|].
  apply Forall_cons in Hch as [[Hpp Hpn] Hch]. constructor; [by apply IH|].
  rewrite Forall_forall in Hp, Hch. apply Forall_forall. intros q Hq.
  specialize (Hp q Hq). destruct (Hch q Hq) as [Hqp Hqn].
  rewrite Hpp, Hqp in Hp. by apply path_le_same_parent in Hp.
Qed.

(** ** The runs *)

Section Runs.

Variable BeautifulSoup : str -> soup.
Variable fs : filesystem.
Variable out_dir : Path.

Local Abbreviation body := (fun epub_file : Path =>
  epub_to_txt BeautifulSoup fs (str_of_path epub_file)
              (str_of_path (target_txt out_dir epub_file))).
Local Abbreviation conv := (converted BeautifulSoup fs out_dir).
Local Abbreviation target := (fun p => str_of_path (target_txt out_dir p)).

Lemma epub_to_txt_outcome w p :
  body p w
  = match conversion_error fs out_dir p with
    | Some e => (inl e, w)
    | None => (inr tt, conv w p)
    end.
Proof.
  unfold epub_to_txt, conversion_error, converted, mbind, io_bind, write_text.
  destruct (read_epub fs (str_of_path p)) as [book|]; [|done].
  unfold mret, io_ret. cbv beta iota.
  by destruct (open_fails fs (target p)).
Qed.

Lemma convertible_no_error p :
  convertible fs out_dir p <-> conversion_error fs out_dir p = None.
Proof.
  unfold convertible, conversion_error.
  destruct (read_epub fs (str_of_path p)) as [book|].
  - destruct (open_fails fs (target p)).
    + split; [by intros [_ ?] | done].
    + split; [done|]. intros _. split; [by eexists | done].
  - split; [|done]. intros [[? ?] _]. done.
Qed.

Lemma epub_to_txt_converted w p :
  convertible fs out_dir p -> body p w = (inr tt, conv w p).
Proof.
  intros H%convertible_no_error.
  pose proof (epub_to_txt_outcome w p) as E. by rewrite H in E.
Qed.

Lemma converted_convertible w p book :
  read_epub fs (str_of_path p) = Some book ->
  open_fails fs (target p) = false ->
  conv w p
  = {| files := <[target p := book_text BeautifulSoup book]> (files w);
       stdout := stdout w ++ [converted_message (str_of_path p) (target p)];
       made_dirs := made_dirs w |}.
Proof. intros Hr Ho. unfold converted. by rewrite Hr, Ho. Qed.

Lemma for_each_converted l : forall w,
  Forall (convertible fs out_dir) l ->
  for_each l body w = (inr tt, foldl conv w l).
Proof.
  induction l as [|p l IH]; intros w Hl; [done|].
  apply Forall_cons in Hl as [Hp Hl].
  cbn [for_each foldl]. unfold mbind, io_bind.
  rewrite (epub_to_txt_converted w p Hp). by apply IH.
Qed.

Lemma stdout_converted l : forall w,
  Forall (convertible fs out_dir) l ->
  stdout (foldl conv w l)
  = stdout w ++ ((fun p => converted_message (str_of_path p) (target p)) <$> l).
Proof.
  induction l as [|p l IH]; intros w Hl; simpl; [by rewrite app_nil_r|].
  apply Forall_cons in Hl as [[[book Hr] Ho] Hl]. rewrite (IH _ Hl).
  rewrite (converted_convertible w p book Hr Ho). simpl.
  by rewrite <- app_assoc.
Qed.

Lemma dom_converted l : forall w,
  Forall (convertible fs out_dir) l ->
  dom (files (foldl conv w l)) = dom (files w) ∪ list_to_set (target <$> l).
Proof.
  induction l as [|p l IH]; intros w Hl; simpl; [set_solver|].
  apply Forall_cons in Hl as [[[book Hr] Ho] Hl]. rewrite (IH _ Hl).
  rewrite (converted_convertible w p book Hr Ho). simpl.
  rewrite dom_insert_L. set_solver.
Qed.

Lemma made_dirs_converted l : forall w,
  made_dirs (foldl conv w l) = made_dirs w.
Proof.
  induction l as [|p l IH]; intros w; simpl; [done|]. rewrite IH.
  unfold converted. destruct (read_epub _ _); [|done].
  by destruct (open_fails _ _).
Qed.

Lemma files_converted_other l k : forall w,
  Forall (fun q => target q <> k) l ->
  files (foldl conv w l) !! k = files w !! k.
Proof.
  induction l as [|p l IH]; intros w Hl; simpl; [done|].
  apply Forall_cons in Hl as [Hp Hl]. rewrite (IH _ Hl).
  unfold converted. destruct (read_epub _ _); [|done].
  destruct (open_fails _ _); [done|]. simpl.
  by rewrite lookup_insert_ne.
Qed.

(** The last conversion that writes a target decides its content. *)
Lemma files_converted_last pre p post book w :
  read_epub fs (str_of_path p) = Some book ->
  open_fails fs (target p) = false ->
  Forall (fun q => target q <> target p) post ->
  files (foldl conv w (pre ++ p :: post)) !! target p
  = Some (book_text BeautifulSoup book).
Proof.
  intros Hp Ho Hpost. rewrite foldl_app. cbn [foldl].
  rewrite (files_converted_other post _ _ Hpost).
  rewrite (converted_convertible _ p book Hp Ho). simpl.
  by rewrite lookup_insert_eq.
Qed.

(** The loop stops at the first file whose conversion raises. *)
Lemma for_each_abort pre p post e : forall w,
  Forall (convertible fs out_dir) pre ->
  conversion_error fs out_dir p = Some e ->
  for_each (pre ++ p :: post) body w = (inl e, foldl conv w pre).
Proof.
  induction pre as [|q pre IH]; intros w Hpre Hp.
  - cbn [app for_each foldl]. unfold mbind, io_bind.
    pose proof (epub_to_txt_outcome w p) as E. rewrite Hp in E.
    by rewrite E.
  - apply Forall_cons in Hpre as [Hq Hpre].
    cbn [app for_each foldl]. unfold mbind, io_bind.
    rewrite (epub_to_txt_converted w q Hq). by apply IH.
Qed.





Lemma files_converted_map l : forall w,
  files (foldl conv w l)
  = list_to_map (reverse (omap (written BeautifulSoup fs out_dir) l))
    ∪ files w.
Proof.
  induction l as [|p l IH]; intros w.
  - cbn. by rewrite (left_id_L ∅ (∪)).
  - cbn [foldl omap list_omap]. rewrite IH. unfold converted, written.
    destruct (read_epub fs (str_of_path p)) as [book|]; [|done].
    destruct (open_fails fs (target p)); [done|].
    cbn [files]. rewrite reverse_cons, list_to_map_app.
    rewrite <- (assoc_L (∪)). f_equal.
    rewrite list_to_map_cons, list_to_map_nil, <- insert_union_l.
    by rewrite (left_id_L ∅ (∪)).
Qed.

End Runs.

(** The batch after the test of the input directory and [mkdir]. *)
Lemma convert_directory_unfold (BeautifulSoup : str -> soup)
    (fs : filesystem) (input_dir output_dir : str) (w : world) :
  is_dir fs (Path_of input_dir) = true ->
  mkdir_fails fs (Path_of output_dir) = false ->
  convert_directory BeautifulSoup fs input_dir output_dir w
  = let w0 := {| files := files w; stdout := stdout w;
                 made_dirs := {[str_of_path (Path_of output_dir)]}
                              ∪ made_dirs w |} in
    if nonempty (epub_files fs (Path_of input_dir))
    then for_each (epub_files fs (Path_of input_dir)) (fun epub_file =>
           epub_to_txt BeautifulSoup fs (str_of_path epub_file)
             (str_of_path (target_txt (Path_of output_dir) epub_file))) w0
    else (inr tt,
          {| files := files w;
             stdout := stdout w
                       ++ [no_files_message (str_of_path (Path_of input_dir))];
             made_dirs := {[str_of_path (Path_of output_dir)]}
                          ∪ made_dirs w |}).
Proof.
  intros Hdir Hmk. unfold convert_directory, mbind, io_bind, mkdir.
  rewrite Hdir, Hmk. cbn [negb].
  by destruct (nonempty (epub_files fs (Path_of input_dir))).
Qed.

(** ** Properties of batch mode *)

(** C9, as amended. In batch mode the selected entries are exactly the
    regular files of the listing whose extension is [.epub] in any letter
    case, each as often as listed. They are processed in the order of their
    names by code point; the output of a file is named by its stem followed
    by [.txt], in the output directory. When the output directory is made,
    an empty selection prints one line and returns normally; otherwise,
    when every selected file is read and its target opened, one line per
    file is printed in that order and the files written are the targets of
    the selected files. *)
Theorem convert_directory_selection (BeautifulSoup : str -> soup)
    (fs : filesystem) (input_dir output_dir : str) (w : world) :
  is_dir fs (Path_of input_dir) = true ->
  let selected := epub_files fs (Path_of input_dir) in
  let run := convert_directory BeautifulSoup fs input_dir output_dir w in
  let target := fun p => str_of_path (target_txt (Path_of output_dir) p) in
  (forall p, p ∈ selected
             <-> p ∈ entries fs (Path_of input_dir)
                 /\ is_file fs p = true /\ lower (suffix p) = u ".epub")
  /\ selected ≡ₚ List.filter (is_epub fs) (entries fs (Path_of input_dir))
  /\ StronglySorted (fun p q => str_leb (name p) (name q) = true) selected
  /\ (forall p, p ∈ selected ->
        name p = stem p ++ suffix p
        /\ target_txt (Path_of output_dir) p
           = path_div (Path_of output_dir) (stem p ++ u ".txt"))
  /\ (mkdir_fails fs (Path_of output_dir) = false ->
      selected = [] ->
        run = (inr tt,
               {| files := files w;
                  stdout := stdout w
                    ++ [no_files_message (str_of_path (Path_of input_dir))];
                  made_dirs := {[str_of_path (Path_of output_dir)]}
                               ∪ made_dirs w |}))
  /\ (mkdir_fails fs (Path_of output_dir) = false ->
      selected <> [] ->
      Forall (fun p => is_Some (read_epub fs (str_of_path p))) selected ->
      Forall (fun p => open_fails fs (target p) = false) selected ->
        run.1 = inr tt
        /\ stdout run.2
           = stdout w
             ++ ((fun p => converted_message (str_of_path p) (target p))
                 <$> selected)
        /\ dom (files run.2)
           = dom (files w) ∪ list_to_set (target <$> selected)
        /\ made_dirs run.2
           = {[str_of_path (Path_of output_dir)]} ∪ made_dirs w).
Proof.
  intros Hdir selected run target.
  split; [apply epub_files_elem_of|].
  split; [apply epub_files_Permutation|].
  split; [apply epub_files_sorted|].
  split; [intros p _; split; [apply name_stem_suffix | done]|].
  split.
  - intros Hmk Hsel. unfold run.
    rewrite (convert_directory_unfold _ _ _ _ _ Hdir Hmk). cbv zeta.
    fold selected. by rewrite Hsel.
  - intros Hmk Hne Hread Hopen. unfold run.
    rewrite (convert_directory_unfold _ _ _ _ _ Hdir Hmk). cbv zeta.
    fold selected. destruct selected as [|p l] eqn:E; [done|].
    cbn [nonempty].
    assert (Hconv : Forall (convertible fs (Path_of output_dir)) (p :: l)).
    { apply Forall_forall. intros q Hq. rewrite Forall_forall in Hread, Hopen.
      split; [by apply Hread | by apply Hopen]. }
    rewrite for_each_converted by done. cbn [fst snd].
    rewrite stdout_converted, dom_converted, made_dirs_converted by done.
    done.
Qed.

Lemma convert_directory_selection_witness :
  is_dir fs_batch (Path_of (u "in/")) = true
  /\ name <$> epub_files fs_batch (Path_of (u "in/"))
     = [u "a.EPUB"; u "b.epub"]
  /\ stdout (convert_directory text_parser fs_batch (u "in/") (u "out/")
               world0).2
     = [converted_message (u "in/a.EPUB") (u "out/a.txt");
        converted_message (u "in/b.epub") (u "out/b.txt")]
  /\ dom (files (convert_directory text_parser fs_batch (u "in/") (u "out/")
                   world0).2)
     = {[ u "out/a.txt"; u "out/b.txt" ]}.
Proof.
  assert (Hdir : is_dir fs_batch (Path_of (u "in/")) = true) by reflexivity.
  split; [exact Hdir|]. split; [vm_compute; reflexivity|].
  destruct (convert_directory_selection text_parser fs_batch (u "in/")
              (u "out/") world0 Hdir) as (_ & _ & _ & _ & _ & Hrun).
  destruct Hrun as (_ & Hout & Hdom & _).
  - reflexivity.
  - vm_compute. discriminate.
  - vm_compute. repeat constructor; eexists; reflexivity.
  - vm_compute. repeat constructor.
  - split.
    + rewrite Hout. vm_compute. reflexivity.
    + rewrite Hdom. vm_compute. reflexivity.
Defined.

(** C9 as stated fails: an entry with the extension [.epub] that is a
    directory is not selected. *)
Lemma epub_directory_not_selected :
  is_dir fs_subdir (Path_of (u "in")) = true
  /\ ~ selects_by_extension fs_subdir (Path_of (u "in")).
Proof.
  split; [reflexivity|]. intros H.
  specialize (H (path_div (Path_of (u "in")) (u "sub.epub"))).
  assert (Hin : path_div (Path_of (u "in")) (u "sub.epub")
                ∈ entries fs_subdir (Path_of (u "in")))
    by apply list_elem_of_here.
  apply H in Hin. destruct Hin as [_ Hsel].
  assert (Hext : lower (suffix (path_div (Path_of (u "in")) (u "sub.epub")))
                 = u ".epub") by reflexivity.
  apply Hsel, epub_files_elem_of in Hext as (_ & Hfile & _).
  discriminate Hfile.
Qed.

(** C10. The output path is a function of the stem alone. Two names made of
    the same stem and of extensions that read [.epub] when lowered have the
    same output path. When two selected files have the same stem, after a
    run in which the output directory is made, every selected file is read
    and every target is opened, the output file holds the text of the one
    that comes last in the sorted order. *)
Theorem same_stem_overwrites (BeautifulSoup : str -> soup) (fs : filesystem)
    (input_dir output_dir : str) (w : world) :
  (forall p q, stem p = stem q ->
     target_txt (Path_of output_dir) p = target_txt (Path_of output_dir) q)
  /\ (forall s ext1 ext2,
        s <> [] -> lower ext1 = u ".epub" -> lower ext2 = u ".epub" ->
        target_txt (Path_of output_dir)
                   (path_div (Path_of input_dir) (s ++ ext1))
        = target_txt (Path_of output_dir)
                     (path_div (Path_of input_dir) (s ++ ext2))
        /\ name (target_txt (Path_of output_dir)
                            (path_div (Path_of input_dir) (s ++ ext1)))
           = s ++ u ".txt")
  /\ (forall pre p mid q post book,
        is_dir fs (Path_of input_dir) = true ->
        mkdir_fails fs (Path_of output_dir) = false ->
        epub_files fs (Path_of input_dir) = pre ++ p :: mid ++ q :: post ->
        stem p = stem q ->
        Forall (fun r => stem r <> stem q) post ->
        Forall (fun r => is_Some (read_epub fs (str_of_path r)))
               (epub_files fs (Path_of input_dir)) ->
        Forall (fun r => open_fails fs
                  (str_of_path (target_txt (Path_of output_dir) r)) = false)
               (epub_files fs (Path_of input_dir)) ->
        read_epub fs (str_of_path q) = Some book ->
        let run := convert_directory BeautifulSoup fs input_dir output_dir w in
        run.1 = inr tt
        /\ files run.2 !! str_of_path (target_txt (Path_of output_dir) p)
           = Some (book_text BeautifulSoup book)).
Proof.
  split; [|split].
  - intros p q H. unfold target_txt. by rewrite H.
  - intros s ext1 ext2 Hs H1 H2.
    destruct (stem_of_epub_name (Path_of input_dir) s ext1 Hs H1) as [E1 _].
    destruct (stem_of_epub_name (Path_of input_dir) s ext2 Hs H2) as [E2 _].
    unfold target_txt. rewrite E1, E2. split; [done|].
    by rewrite name_path_div.
  - intros pre p mid q post book Hdir Hmk Hsel Hstem Hpost Hread Hopen Hq run.
    unfold run. rewrite (convert_directory_unfold _ _ _ _ _ Hdir Hmk).
    cbv zeta.
    assert (Hconv : Forall (convertible fs (Path_of output_dir))
                      (epub_files fs (Path_of input_dir))).
    { apply Forall_forall. intros r Hr. rewrite Forall_forall in Hread, Hopen.
      split; [by apply Hread | by apply Hopen]. }
    assert (Hoq : open_fails fs
              (str_of_path (target_txt (Path_of output_dir) q)) = false).
    { rewrite Forall_forall in Hopen. apply Hopen. rewrite Hsel.
      apply elem_of_app. right. apply list_elem_of_further.
      apply elem_of_app. right. apply list_elem_of_here. }
    rewrite Hsel in *.
    destruct (pre ++ p :: mid ++ q :: post) as [|x l] eqn:E;
      [by destruct pre|].
    cbn [nonempty]. rewrite for_each_converted by done. cbn [fst snd].
    split; [done|]. rewrite <- E.
    replace (pre ++ p :: mid ++ q :: post)
      with ((pre ++ p :: mid) ++ q :: post) by by rewrite <- app_assoc.
    assert (Ht : str_of_path (target_txt (Path_of output_dir) p)
                 = str_of_path (target_txt (Path_of output_dir) q))
      by by apply target_inj.
    rewrite Ht. apply files_converted_last; [done|done|].
    eapply Forall_impl; [exact Hpost|]. intros r Hr Hk. simpl in Hr.
    by apply target_inj in Hk.
Qed.

Lemma same_stem_overwrites_witness :
  u "a" <> [] /\ lower (u ".EPUB") = u ".epub" /\ lower (u ".epub") = u ".epub"
  /\ target_txt (Path_of (u "out"))
       (path_div (Path_of (u "in")) (u "a" ++ u ".EPUB"))
     = target_txt (Path_of (u "out"))
         (path_div (Path_of (u "in")) (u "a" ++ u ".epub"))
  /\ epub_files fs_case (Path_of (u "in"))
     = [] ++ path_div (Path_of (u "in")) (u "a.EPUB")
          :: [] ++ path_div (Path_of (u "in")) (u "a.epub") :: []
  /\ files (convert_directory text_parser fs_case (u "in") (u "out") world0).2
       !! u "out/a.txt"
     = Some (book_text text_parser book_lower).
Proof.
  pose proof (same_stem_overwrites text_parser fs_case (u "in") (u "out")
                world0) as (_ & Hext & Hrun).
  assert (Hs : u "a" <> []) by discriminate.
  assert (H1 : lower (u ".EPUB") = u ".epub") by reflexivity.
  assert (H2 : lower (u ".epub") = u ".epub") by reflexivity.
  assert (Hsel : epub_files fs_case (Path_of (u "in"))
     = [] ++ path_div (Path_of (u "in")) (u "a.EPUB")
          :: [] ++ path_div (Path_of (u "in")) (u "a.epub") :: [])
    by (vm_compute; reflexivity).
  split; [exact Hs|]. split; [exact H1|]. split; [exact H2|].
  split; [|split; [exact Hsel|]].
  - exact (proj1 (Hext (u "a") (u ".EPUB") (u ".epub") Hs H1 H2)).
  - refine (proj2 (Hrun [] (path_div (Path_of (u "in")) (u "a.EPUB")) []
                     (path_div (Path_of (u "in")) (u "a.epub")) [] book_lower
                     _ _ Hsel _ _ _ _ _)).
    + reflexivity.
    + reflexivity.
    + reflexivity.
    + constructor.
    + rewrite Hsel. repeat constructor; eexists; reflexivity.
    + rewrite Hsel. repeat constructor.
    + reflexivity.
Defined.

(** * Further properties *)

(** ** The spine resolver without assumption on the identifiers *)

Lemma iter_documents_sound (book : Book) it :
  it ∈ iter_documents_in_order book ->
  it ∈ get_items_of_type book ITEM_DOCUMENT.
Proof.
  rewrite iter_documents_in_order_spec. intros [H|H]%elem_of_app.
  - apply list_elem_of_omap in H as (e & _ & Hr).
    by apply resolve_document_Some in Hr as [_ ?].
  - by apply list_elem_of_filter in H as [_ ?].
Qed.

(** X1. Whatever the package, every item yielded is a document-type item
    of the package, and the identifiers of the yielded items are exactly
    the identifiers of the package's documents. *)
Theorem iter_documents_identifiers (book : Book) :
  (forall it, it ∈ iter_documents_in_order book ->
     it ∈ get_items_of_type book ITEM_DOCUMENT)
  /\ (forall i, i ∈ (item_id <$> iter_documents_in_order book)
               <-> i ∈ (item_id <$> get_items_of_type book ITEM_DOCUMENT)).
Proof.
  split; [apply iter_documents_sound|]. intros i. split.
  - intros (it & -> & Hit)%list_elem_of_fmap.
    apply list_elem_of_fmap. exists it.
    split; [done | by apply iter_documents_sound].
  - intros (d & -> & Hd)%list_elem_of_fmap.
    rewrite iter_documents_in_order_spec, fmap_app, elem_of_app.
    destruct (decide (item_id d ∈
      (item_id <$> omap (resolve_document book) (spine book)))) as [Hs|Hs].
    + by left.
    + right. apply list_elem_of_fmap. exists d. split; [done|].
      by apply list_elem_of_filter.
Qed.

(** X2. When no spine entry resolves to a document, in particular when the
    spine is empty, the resolver yields all documents of the package in the
    order in which the package enumerates them. *)
Theorem iter_documents_without_spine (book : Book) :
  Forall (fun e => resolve_document book e = None) (spine book) ->
  iter_documents_in_order book = get_items_of_type book ITEM_DOCUMENT.
Proof.
  intros Hnone. rewrite iter_documents_in_order_spec.
  assert (E : omap (resolve_document book) (spine book) = []).
  { induction Hnone as [|e sp He _ IH]; [done|].
    cbn [omap list_omap]. by rewrite He. }
  rewrite E. cbn [app fmap list_fmap].
  induction (get_items_of_type book ITEM_DOCUMENT) as [|d l IH]; [done|].
  rewrite filter_cons_True by apply not_elem_of_nil. by rewrite IH.
Qed.

Lemma iter_documents_without_spine_witness :
  Forall (fun e => resolve_document book_no_spine e = None)
         (spine book_no_spine)
  /\ iter_documents_in_order book_no_spine = [docB; docA].
Proof.
  assert (H : Forall (fun e => resolve_document book_no_spine e = None)
                (spine book_no_spine)) by constructor.
  split; [exact H|].
  rewrite (iter_documents_without_spine book_no_spine H).
  vm_compute. reflexivity.
Defined.

(** ** The normalizer on blank text *)

Lemma lstrip_nil_iff s : lstrip s = [] <-> Forall (fun c => is_space c = true) s.
Proof.
  unfold lstrip. induction s as [|c s IH]; simpl.
  - split; [constructor | done].
  - destruct (is_space c) eqn:Hc.
    + rewrite IH. split; [by constructor|]. by intros [_ ?]%Forall_cons.
    + split; [done|]. intros [H _]%Forall_cons. congruence.
Qed.

Lemma strip_nil_iff s : strip s = [] <-> Forall (fun c => is_space c = true) s.
Proof.
  rewrite <- lstrip_nil_iff. unfold strip. split.
  - intros H. destruct (lstrip_starts s) as [E|Hs]; [done|].
    apply rstrip_starts in Hs. by rewrite H in Hs.
  - by intros ->.
Qed.

Lemma splitlines_from_Forall (P : char -> Prop) n : forall s cur,
  (length s <= n)%nat -> Forall P cur -> Forall P s ->
  Forall (Forall P) (splitlines_from cur s).
Proof.
  induction n as [|n IH]; intros s cur Hn Hcur Hs.
  - destruct s; [|simpl in Hn; lia]. simpl.
    destruct cur; [constructor|]. repeat constructor. by apply Forall_rev.
  - destruct s as [|c rest]; simpl.
    + destruct cur; [constructor|]. repeat constructor. by apply Forall_rev.
    + simpl in Hn. apply Forall_cons in Hs as [Hc Hrest].
      destruct (is_linebreak c).
      * destruct rest as [|c' rest'].
        { repeat constructor. by apply Forall_rev. }
        simpl in Hn. apply Forall_cons in Hrest as [Hc' Hrest'].
        destruct ((c =? CR) && (c' =? LF)); constructor;
          try (by apply Forall_rev); apply IH; simpl; try lia;
          repeat constructor; done.
      * apply IH; [lia| |done]. by constructor.
Qed.

(** Lines of white space only come from a text of white space only. *)
Lemma splitlines_from_spaces n : forall s cur,
  (length s <= n)%nat ->
  Forall (Forall (fun c => is_space c = true)) (splitlines_from cur s) ->
  (cur <> [] -> Forall (fun c => is_space c = true) cur)
  /\ Forall (fun c => is_space c = true) s.
Proof.
  induction n as [|n IH]; intros s cur Hn Hl.
  - destruct s; [|simpl in Hn; lia]. simpl in Hl. split; [|constructor].
    intros Hne. destruct cur as [|x cur]; [done|].
    apply Forall_inv in Hl. apply Forall_rev in Hl.
    by rewrite rev_involutive in Hl.
  - destruct s as [|c rest]; simpl in Hl.
    + split; [|constructor]. intros Hne. destruct cur as [|x cur]; [done|].
      apply Forall_inv in Hl. apply Forall_rev in Hl.
      by rewrite rev_involutive in Hl.
    + simpl in Hn. destruct (is_linebreak c) eqn:Hc.
      * apply linebreak_is_space in Hc.
        assert (Hrev : Forall (fun c => is_space c = true) (rev cur)
                  -> Forall (fun c => is_space c = true) cur).
        { intros H. apply Forall_rev in H. by rewrite rev_involutive in H. }
        destruct rest as [|c' rest'].
        { apply Forall_inv in Hl. split; [intros _; by apply Hrev|].
          by repeat constructor. }
        simpl in Hn. destruct ((c =? CR) && (c' =? LF)) eqn:Hcr.
        -- apply Forall_cons in Hl as [Hcur Hl].
           apply IH in Hl as [_ Hrest']; [|lia].
           split; [intros _; by apply Hrev|].
           apply andb_true_iff in Hcr as [_ ->%N.eqb_eq].
           repeat constructor; done.
        -- apply Forall_cons in Hl as [Hcur Hl].
           apply IH in Hl as [_ Hrest]; [|simpl; lia].
           split; [intros _; by apply Hrev|]. by constructor.
      * apply IH in Hl as [Hcur Hrest]; [|lia].
        specialize (Hcur ltac:(done)). apply Forall_cons in Hcur as [Hcs Hcur].
        split; [by intros _|]. by constructor.
Qed.

Lemma collapse_nil_iff lines : forall pb,
  collapse false pb lines = [] <-> Forall (fun l => strip l = []) lines.
Proof.
  induction lines as [|line rest IH]; intros pb.
  - split; [constructor | done].
  - cbn [collapse]. destruct (strip line) as [|c t] eqn:Hs.
    + cbn [andb]. rewrite IH. split; [by constructor|].
      by intros [_ ?]%Forall_cons.
    + split; [done|]. intros [H _]%Forall_cons. congruence.
Qed.

(** X3. The normalizer returns the empty text exactly when the text taken
    from the tree consists of white space only (or is empty). *)
Theorem blank_document_empty_text (sp : soup) :
  clean_text_preserving_gaps sp = []
  <-> Forall (fun c => is_space c = true) (get_text [LF] (set_spacers sp)).
Proof.
  unfold clean_text_preserving_gaps.
  generalize (get_text [LF] (set_spacers sp)). intros raw.
  assert (Hlines : Forall (fun l => strip l = []) (splitlines raw)
                   <-> Forall (fun c => is_space c = true) raw).
  { split.
    - intros H. apply (splitlines_from_spaces (length raw) raw []); [lia|].
      eapply Forall_impl; [exact H|]. intros l. apply strip_nil_iff.
    - intros H. eapply Forall_impl.
      + apply (splitlines_from_Forall (fun c => is_space c = true)
                 (length raw) raw []); [lia | constructor | exact H].
      + intros l. apply strip_nil_iff. }
  rewrite <- Hlines, <- (collapse_nil_iff _ false), <- clean_lines_collapse.
  destruct (normalize_text_lines raw)
    as (F & HF & _ & Hc & Hg & _ & _ & Hlast).
  rewrite HF. split.
  - intros HE. destruct F as [|x F].
    + destruct Hc as [Hc|Hc]; [done|]. exfalso.
      pose proof (collapse_gaps_ok (splitlines raw) false false) as Hg'.
      rewrite <- clean_lines_collapse, Hc in Hg'. done.
    + exfalso. by apply (join_LF_nonempty (x :: F)).
  - intros HE. rewrite HE in Hc. destruct Hc as [<-|Hc]; [done|].
    by destruct F.
Qed.

(** X4. Every line of the returned text is free of surrounding white
    space and of line boundaries, and the returned text never has more
    lines than the text taken from the tree. *)
Theorem normalized_lines_stripped (sp : soup) :
  let raw_text := get_text [LF] (set_spacers sp) in
  let lines := splitlines (clean_text_preserving_gaps sp) in
  Forall (fun l => strip l = l /\ plain l) lines
  /\ (length lines <= length (splitlines raw_text))%nat.
Proof.
  intros raw lines. unfold lines, clean_text_preserving_gaps. fold raw.
  destruct (normalize_text_lines raw)
    as (F & _ & -> & Hc & _ & Hl & Hp & _). split.
  - apply Forall_forall. intros l Hin. rewrite Forall_forall in Hl, Hp.
    split; [|by apply Hp]. destruct (Hl l Hin) as [->|Ht]; [done|].
    by apply strip_id.
  - assert (Hlen : forall lines started pb,
              (length (collapse started pb lines) <= length lines)%nat).
    { clear. induction lines as [|l ls IH]; intros started pb; [done|].
      cbn [collapse]. destruct (strip l).
      - destruct (started && negb pb); simpl;
          [specialize (IH started true) | specialize (IH started true)]; lia.
      - simpl. specialize (IH true false). lia. }
    specialize (Hlen (splitlines raw) false false).
    rewrite <- clean_lines_collapse in Hlen.
    destruct Hc as [Hc|Hc]; rewrite Hc in Hlen; [done|].
    rewrite length_app in Hlen. simpl in Hlen. lia.
Qed.

(** ** The gap marker *)

Lemma normalize_joined_lines (lines result : list str) :
  Forall plain lines -> last lines <> Some [] ->
  clean_lines lines = result ->
  gaps_ok true result = true -> Forall line_ok result ->
  last result <> Some [] ->
  normalize_text (join [LF] lines) = join [LF] result.
Proof.
  intros Hp Hlast Hclean Hg Hl Hr. unfold normalize_text.
  rewrite (splitlines_join lines Hp Hlast), Hclean.
  by apply strip_join_id.
Qed.

(** X5. Between two paragraphs whose texts are single lines without
    surrounding white space, an element of class [empty-line] gives exactly
    one empty line in the returned text, whatever the element contains.
    Without such an element, or with an empty element that is not of this
    class, the two texts are on consecutive lines. *)
Theorem gap_marker_keeps_one_empty_line
    (n1 n2 nd : str) (c1 c2 cd : list str) (kids : list node) (a b : str) :
  trimmed a = true -> plain a -> trimmed b = true -> plain b ->
  has_class (u "empty-line") c1 = false ->
  has_class (u "empty-line") c2 = false ->
  (has_class (u "empty-line") cd = true ->
   clean_text_preserving_gaps
     [Tag n1 c1 [NavigableString a]; Tag nd cd kids;
      Tag n2 c2 [NavigableString b]]
   = a ++ [LF; LF] ++ b)
  /\ (has_class (u "empty-line") cd = false ->
      clean_text_preserving_gaps
        [Tag n1 c1 [NavigableString a]; Tag nd cd [];
         Tag n2 c2 [NavigableString b]]
      = a ++ [LF] ++ b)
  /\ clean_text_preserving_gaps
       [Tag n1 c1 [NavigableString a]; Tag n2 c2 [NavigableString b]]
     = a ++ [LF] ++ b.
Proof.
  intros Ha Hpa Hb Hpb H1 H2.
  assert (Hsa : strip a = a) by by apply strip_id.
  assert (Hsb : strip b = b) by by apply strip_id.
  assert (Hp0 : plain []) by constructor.
  assert (Hla : line_ok a) by by right.
  assert (Hlb : line_ok b) by by right.
  assert (Hl0 : line_ok []) by by left.
  assert (Hlast : forall l : list str, last (l ++ [b]) <> Some []).
  { intros l. rewrite last_snoc. intros [= E]. by rewrite E in Hb. }
  assert (Hab : normalize_text (join [LF] [a; b]) = join [LF] [a; b]).
  { apply normalize_joined_lines.
    - repeat first [apply List.Forall_nil | apply List.Forall_cons; [assumption|]].
    - apply (Hlast [a]).
    - rewrite clean_lines_collapse. cbn [collapse]. rewrite Hsa, Hsb.
      destruct a; [done|]. by destruct b.
    - destruct a; [done|]. by destruct b.
    - repeat first [apply List.Forall_nil | apply List.Forall_cons; [assumption|]].
    - apply (Hlast [a]). }
  unfold clean_text_preserving_gaps, set_spacers, get_text.
  split; [|split].
  - intros Hd. cbn [List.map set_spacer]. rewrite H1, H2, Hd.
    cbn [List.map set_spacer List.flat_map all_strings app].
    change (normalize_text (join [LF] [a; []; []; b])
            = join [LF] [a; []; b]).
    apply normalize_joined_lines.
    + repeat first [apply List.Forall_nil | apply List.Forall_cons; [assumption|]].
    + apply (Hlast [a; []; []]).
    + rewrite clean_lines_collapse. cbn [collapse].
      rewrite Hsa, Hsb, strip_nil. destruct a; [done|]. by destruct b.
    + destruct a; [done|]. by destruct b.
    + repeat first [apply List.Forall_nil | apply List.Forall_cons; [assumption|]].
    + apply (Hlast [a; []]).
  - intros Hd. cbn [List.map set_spacer]. rewrite H1, H2, Hd.
    cbn [List.map set_spacer List.flat_map all_strings app]. exact Hab.
  - cbn [List.map set_spacer]. rewrite H1, H2.
    cbn [List.map set_spacer List.flat_map all_strings app]. exact Hab.
Qed.

Lemma gap_marker_keeps_one_empty_line_witness :
  trimmed (u "Hello") = true /\ trimmed (u "World") = true
  /\ has_class (u "empty-line") [u "empty-line"] = true
  /\ clean_text_preserving_gaps
       [Tag (u "p") [] [NavigableString (u "Hello")];
        Tag (u "div") [u "empty-line"] [Comment (u "gap")];
        Tag (u "p") [] [NavigableString (u "World")]]
     = u "Hello" ++ [LF; LF] ++ u "World".
Proof.
  assert (Ha : trimmed (u "Hello") = true) by reflexivity.
  assert (Hb : trimmed (u "World") = true) by reflexivity.
  assert (Hd : has_class (u "empty-line") [u "empty-line"] = true)
    by reflexivity.
  split; [exact Ha|]. split; [exact Hb|]. split; [exact Hd|].
  refine (proj1 (gap_marker_keeps_one_empty_line (u "p") (u "p") (u "div")
                   [] [] [u "empty-line"] [Comment (u "gap")]
                   (u "Hello") (u "World") Ha _ Hb _ _ _) Hd).
  - repeat constructor.
  - repeat constructor.
  - reflexivity.
  - reflexivity.
Defined.

(** ** Conversion of one file and of a directory, in every outcome *)

(** X6. For a book that is read and has no document-type item,
    [epub_to_txt] still writes the output file, when it is opened, with the
    empty text, and prints its line. *)
Theorem epub_to_txt_no_documents (BeautifulSoup : str -> soup)
    (fs : filesystem) (epub_path txt_path : str) (book : Book) (w : world) :
  read_epub fs epub_path = Some book ->
  open_fails fs txt_path = false ->
  get_items_of_type book ITEM_DOCUMENT = [] ->
  epub_to_txt BeautifulSoup fs epub_path txt_path w
  = (inr tt,
     {| files := <[txt_path := []]> (files w);
        stdout := stdout w ++ [converted_message epub_path txt_path];
        made_dirs := made_dirs w |}).
Proof.
  intros Hread Hopen Hdocs.
  assert (E : iter_documents_in_order book = []).
  { destruct (iter_documents_in_order book) as [|it l] eqn:Hi; [done|].
    pose proof (iter_documents_sound book it) as Hsound.
    rewrite Hi, Hdocs in Hsound.
    specialize (Hsound (list_elem_of_here it l)).
    by apply elem_of_nil in Hsound. }
  unfold epub_to_txt, mbind, io_bind. rewrite Hread.
  unfold mret, io_ret, write_text, print. cbv beta iota. rewrite Hopen.
  unfold book_text. by rewrite E.
Qed.

Lemma epub_to_txt_no_documents_witness :
  read_epub fs_styles (u "in/a.epub") = Some book_styles
  /\ open_fails fs_styles (u "out/a.txt") = false
  /\ get_items_of_type book_styles ITEM_DOCUMENT = []
  /\ files (epub_to_txt text_parser fs_styles (u "in/a.epub")
              (u "out/a.txt") world0).2 !! u "out/a.txt"
     = Some [].
Proof.
  assert (Hread : read_epub fs_styles (u "in/a.epub") = Some book_styles)
    by reflexivity.
  assert (Hopen : open_fails fs_styles (u "out/a.txt") = false)
    by reflexivity.
  assert (Hdocs : get_items_of_type book_styles ITEM_DOCUMENT = [])
    by reflexivity.
  split; [exact Hread|]. split; [exact Hopen|]. split; [exact Hdocs|].
  rewrite (epub_to_txt_no_documents text_parser fs_styles (u "in/a.epub")
             (u "out/a.txt") book_styles world0 Hread Hopen Hdocs).
  cbn [snd files]. apply lookup_insert_eq.
Defined.

(** X8. When the conversion of a selected file raises, because the reader
    raises or because the target cannot be opened, the batch ends with that
    exception: the selected files before it in sorted order have been
    converted, the file itself and the files after it have not. *)
Theorem convert_directory_aborts (BeautifulSoup : str -> soup)
    (fs : filesystem) (input_dir output_dir : str) (w : world)
    (pre post : list Path) (p : Path) (e : exn) :
  is_dir fs (Path_of input_dir) = true ->
  mkdir_fails fs (Path_of output_dir) = false ->
  epub_files fs (Path_of input_dir) = pre ++ p :: post ->
  Forall (convertible fs (Path_of output_dir)) pre ->
  conversion_error fs (Path_of output_dir) p = Some e ->
  let run := convert_directory BeautifulSoup fs input_dir output_dir w in
  let target := fun q => str_of_path (target_txt (Path_of output_dir) q) in
  run.1 = inl e
  /\ stdout run.2
     = stdout w
       ++ ((fun q => converted_message (str_of_path q) (target q)) <$> pre)
  /\ dom (files run.2) = dom (files w) ∪ list_to_set (target <$> pre).
Proof.
  intros Hdir Hmk Hsel Hpre Hp run target. unfold run.
  rewrite (convert_directory_unfold _ _ _ _ _ Hdir Hmk). cbv zeta.
  rewrite Hsel.
  assert (Hne : nonempty (pre ++ p :: post) = true) by by destruct pre.
  rewrite Hne.
  rewrite (for_each_abort BeautifulSoup fs (Path_of output_dir) pre p post e
             _ Hpre Hp).
  cbn [fst snd]. rewrite stdout_converted, dom_converted by done. done.
Qed.

Lemma convert_directory_aborts_witness :
  is_dir fs_broken (Path_of (u "in/")) = true
  /\ epub_files fs_broken (Path_of (u "in/"))
     = [path_div (Path_of (u "in")) (u "a.epub")]
         ++ path_div (Path_of (u "in")) (u "b.epub")
         :: [path_div (Path_of (u "in")) (u "c.epub")]
  /\ conversion_error fs_broken (Path_of (u "out"))
       (path_div (Path_of (u "in")) (u "b.epub"))
     = Some (EpubException (u "in/b.epub"))
  /\ (convert_directory text_parser fs_broken (u "in/") (u "out") world0).1
     = inl (EpubException (u "in/b.epub"))
  /\ dom (files (convert_directory text_parser fs_broken (u "in/") (u "out")
                   world0).2)
     = {[ u "out/a.txt" ]}.
Proof.
  assert (Hdir : is_dir fs_broken (Path_of (u "in/")) = true) by reflexivity.
  assert (Hmk : mkdir_fails fs_broken (Path_of (u "out")) = false)
    by reflexivity.
  assert (Hsel : epub_files fs_broken (Path_of (u "in/"))
     = [path_div (Path_of (u "in")) (u "a.epub")]
         ++ path_div (Path_of (u "in")) (u "b.epub")
         :: [path_div (Path_of (u "in")) (u "c.epub")])
    by (vm_compute; reflexivity).
  assert (Hp : conversion_error fs_broken (Path_of (u "out"))
                 (path_div (Path_of (u "in")) (u "b.epub"))
               = Some (EpubException (u "in/b.epub"))) by reflexivity.
  assert (Hpre : Forall (convertible fs_broken (Path_of (u "out")))
                   [path_div (Path_of (u "in")) (u "a.epub")]).
  { repeat constructor. eexists. reflexivity. }
  destruct (convert_directory_aborts text_parser fs_broken (u "in/") (u "out")
              world0 _ _ _ _ Hdir Hmk Hsel Hpre Hp) as (Hres & _ & Hdom).
  split; [exact Hdir|]. split; [exact Hsel|]. split; [exact Hp|].
  split; [exact Hres|]. rewrite Hdom. vm_compute. reflexivity.
Defined.


(** X10. The file that a conversion writes is never selected as an input
    of batch mode: its name ends in [.txt], so that a batch whose output
    directory is its input directory does not read its own results. *)
Theorem target_never_selected (fs : filesystem) (output_dir : Path) (p : Path) :
  suffix (target_txt output_dir p) = (if nonempty (stem p) then u ".txt" else [])
  /\ is_epub fs (target_txt output_dir p) = false.
Proof.
  assert (Hs : suffix (target_txt output_dir p)
               = if nonempty (stem p) then u ".txt" else []).
  { unfold target_txt, suffix. rewrite name_path_div.
    set (s := stem p).
    assert (Hr : rfind DOT (s ++ u ".txt") = Z.of_nat (length s)).
    { unfold rfind. change (u ".txt") with (DOT :: u "txt").
      rewrite rfind_from_app. cbn [rfind_from].
      rewrite N.eqb_refl, rfind_from_absent; [lia|].
      repeat constructor; discriminate. }
    unfold has_suffix. rewrite Hr, length_app.
    change (length (u ".txt")) with 4%nat.
    destruct s as [|c s'] eqn:Es; [done|]. cbn [nonempty].
    replace ((0 <? Z.of_nat (length (c :: s')))%Z) with true
      by (symmetry; apply Z.ltb_lt; simpl; lia).
    replace ((Z.of_nat (length (c :: s'))
              <? Z.of_nat (length (c :: s') + 4) - 1)%Z) with true
      by (symmetry; apply Z.ltb_lt; lia).
    cbn [andb]. by rewrite Nat2Z.id, drop_app_length. }
  split; [exact Hs|]. unfold is_epub. rewrite Hs.
  destruct (nonempty (stem p)); by rewrite andb_false_r.
Qed.

Lemma convert_directory_converts_all (BeautifulSoup : str -> soup)
    (fs : filesystem) (input_dir output_dir : str) (w : world) :
  is_dir fs (Path_of input_dir) = true ->
  mkdir_fails fs (Path_of output_dir) = false ->
  Forall (convertible fs (Path_of output_dir))
         (epub_files fs (Path_of input_dir)) ->
  convert_directory BeautifulSoup fs input_dir output_dir w
  = (inr tt,
     if nonempty (epub_files fs (Path_of input_dir))
     then foldl (converted BeautifulSoup fs (Path_of output_dir))
                {| files := files w; stdout := stdout w;
                   made_dirs := {[str_of_path (Path_of output_dir)]}
                                ∪ made_dirs w |}
                (epub_files fs (Path_of input_dir))
     else {| files := files w;
             stdout := stdout w
                       ++ [no_files_message (str_of_path (Path_of input_dir))];
             made_dirs := {[str_of_path (Path_of output_dir)]}
                          ∪ made_dirs w |}).
Proof.
  intros Hdir Hmk Hconv.
  rewrite (convert_directory_unfold _ _ _ _ _ Hdir Hmk). cbv zeta.
  destruct (nonempty (epub_files fs (Path_of input_dir))); [|done].
  by rewrite for_each_converted.
Qed.

(** X11. A batch in which the output directory is made, every selected
    file is read and every target is opened can be run again on its own
    result: the second run ends normally and leaves the same output files
    and directories. *)
Theorem convert_directory_rerun (BeautifulSoup : str -> soup)
    (fs : filesystem) (input_dir output_dir : str) (w : world) :
  is_dir fs (Path_of input_dir) = true ->
  mkdir_fails fs (Path_of output_dir) = false ->
  Forall (fun p => is_Some (read_epub fs (str_of_path p)))
         (epub_files fs (Path_of input_dir)) ->
  Forall (fun p => open_fails fs
            (str_of_path (target_txt (Path_of output_dir) p)) = false)
         (epub_files fs (Path_of input_dir)) ->
  let first := convert_directory BeautifulSoup fs input_dir output_dir w in
  let second :=
    convert_directory BeautifulSoup fs input_dir output_dir first.2 in
  first.1 = inr tt /\ second.1 = inr tt
  /\ files second.2 = files first.2
  /\ made_dirs second.2 = made_dirs first.2.
Proof.
  intros Hdir Hmk Hread Hopen first second. unfold second, first.
  assert (Hconv : Forall (convertible fs (Path_of output_dir))
                    (epub_files fs (Path_of input_dir))).
  { apply Forall_forall. intros r Hr. rewrite Forall_forall in Hread, Hopen.
    split; [by apply Hread | by apply Hopen]. }
  rewrite !(convert_directory_converts_all BeautifulSoup fs input_dir
              output_dir) by done.
  cbn [fst snd]. split; [done|]. split; [done|].
  destruct (nonempty (epub_files fs (Path_of input_dir))).
  - rewrite !made_dirs_converted, !files_converted_map. cbn [files made_dirs].
    rewrite ?files_converted_map. cbn [files made_dirs].
    split; [|set_solver].
    by rewrite (assoc_L (∪)), (idemp_L (∪)).
  - cbn [files made_dirs]. split; [done | set_solver].
Qed.

Lemma convert_directory_rerun_witness :
  is_dir fs_case (Path_of (u "in")) = true
  /\ mkdir_fails fs_case (Path_of (u "out")) = false
  /\ Forall (fun p => is_Some (read_epub fs_case (str_of_path p)))
            (epub_files fs_case (Path_of (u "in")))
  /\ Forall (fun p => open_fails fs_case
               (str_of_path (target_txt (Path_of (u "out")) p)) = false)
            (epub_files fs_case (Path_of (u "in")))
  /\ files (convert_directory text_parser fs_case (u "in") (u "out")
              (convert_directory text_parser fs_case (u "in") (u "out")
                 world0).2).2
     = files (convert_directory text_parser fs_case (u "in") (u "out")
                world0).2.
Proof.
  assert (Hdir : is_dir fs_case (Path_of (u "in")) = true) by reflexivity.
  assert (Hmk : mkdir_fails fs_case (Path_of (u "out")) = false)
    by reflexivity.
  assert (Hread : Forall (fun p => is_Some (read_epub fs_case (str_of_path p)))
                    (epub_files fs_case (Path_of (u "in")))).
  { vm_compute. repeat constructor; eexists; reflexivity. }
  assert (Hopen : Forall (fun p => open_fails fs_case
               (str_of_path (target_txt (Path_of (u "out")) p)) = false)
            (epub_files fs_case (Path_of (u "in")))).
  { vm_compute. repeat constructor. }
  split; [exact Hdir|]. split; [exact Hmk|]. split; [exact Hread|].
  split; [exact Hopen|].
  exact (proj1 (proj2 (proj2 (convert_directory_rerun text_parser fs_case
                  (u "in") (u "out") world0 Hdir Hmk Hread Hopen)))).
Defined.

(** ** The command line *)

(** X12. [main] ends with a usage error, exit status 2, and changes
    nothing in the four cases of the source: arguments of both modes; only
    one of the two file arguments; only one of the two directory arguments;
    no argument at all. An argument given as the empty string counts as not
    given. *)
Theorem main_usage_errors (BeautifulSoup : str -> soup) (fs : filesystem)
    (args : Namespace) (w : world) :
  let f1 := truthy (input_file args) in
  let f2 := truthy (output_file args) in
  let d1 := truthy (input_dir args) in
  let d2 := truthy (output_dir args) in
  ((f1 || f2) && (d1 || d2) = true ->
   main BeautifulSoup fs args w = (SystemExit 2 both_modes_message, w))
  /\ (d1 || d2 = false -> xorb f1 f2 = true ->
      main BeautifulSoup fs args w = (SystemExit 2 file_pair_message, w))
  /\ (f1 || f2 = false -> xorb d1 d2 = true ->
      main BeautifulSoup fs args w = (SystemExit 2 dir_pair_message, w))
  /\ (f1 || f2 || d1 || d2 = false ->
      main BeautifulSoup fs args w = (SystemExit 2 no_mode_message, w)).
Proof.
  intros f1 f2 d1 d2. unfold main. fold f1 f2 d1 d2.
  destruct f1, f2, d1, d2; cbn [orb andb xorb negb];
    repeat split; intros; done.
Qed.

Lemma main_usage_errors_witness :
  xorb (truthy (Some (u "book.epub"))) (truthy (Some [])) = true
  /\ main text_parser fs_batch
       (mkNamespace (Some (u "book.epub")) (Some []) None None) world0
     = (SystemExit 2 file_pair_message, world0).
Proof.
  assert (Hx : xorb (truthy (Some (u "book.epub"))) (truthy (Some [])) = true)
    by reflexivity.
  split; [exact Hx|].
  destruct (main_usage_errors text_parser fs_batch
              (mkNamespace (Some (u "book.epub")) (Some []) None None) world0)
    as (_ & Hfile & _).
  exact (Hfile eq_refl Hx).
Defined.

(** ** White space between paragraphs *)

Lemma splitlines_from_blank_run n : forall t cur b,
  (length t <= n)%nat ->
  Forall (fun c => is_space c = true) cur ->
  Forall (fun c => is_space c = true) t ->
  b <> [] ->
  exists run,
    run <> [] /\ Forall (fun l => strip l = []) run
    /\ splitlines_from cur (t ++ LF :: b) = run ++ splitlines_from [] b.
Proof.
  assert (Hblank : forall cur, Forall (fun c => is_space c = true) cur ->
            strip (rev cur) = []).
  { intros cur H. apply strip_nil_iff. by apply Forall_rev. }
  induction n as [|n IH]; intros t cur b Hn Hcur Ht Hb.
  - destruct t; [|simpl in Hn; lia]. exists [rev cur].
    split; [done|]. split; [repeat constructor; by apply Hblank|].
    cbn [app]. by apply splitlines_from_LF.
  - destruct t as [|c t].
    { exists [rev cur]. split; [done|].
      split; [repeat constructor; by apply Hblank|].
      cbn [app]. by apply splitlines_from_LF. }
    simpl in Hn. apply Forall_cons in Ht as [Hc Ht].
    change ((c :: t) ++ LF :: b) with (c :: (t ++ LF :: b)).
    cbn [splitlines_from]. destruct (is_linebreak c) eqn:Hlb.
    + destruct t as [|c' t'].
      * cbn [app]. destruct ((c =? CR) && (LF =? LF)) eqn:Hcr.
        -- exists [rev cur]. split; [done|].
           split; [repeat constructor; by apply Hblank | done].
        -- destruct (IH [] [] b) as (run & Hne & Hrun & E);
             [simpl; lia | constructor | constructor | done |].
           exists (rev cur :: run). split; [done|].
           split; [constructor; [by apply Hblank | done]|].
           cbn [app] in E. by rewrite E.
      * change ((c' :: t') ++ LF :: b) with (c' :: (t' ++ LF :: b)).
        apply Forall_cons in Ht as [Hc' Ht']. simpl in Hn.
        destruct ((c =? CR) && (c' =? LF)).
        -- destruct (IH t' [] b) as (run & Hne & Hrun & E);
             [lia | constructor | done | done |].
           exists (rev cur :: run). split; [done|].
           split; [constructor; [by apply Hblank | done]|].
           by rewrite E.
        -- destruct (IH (c' :: t') [] b) as (run & Hne & Hrun & E);
             [simpl; lia | constructor | by constructor | done |].
           exists (rev cur :: run). split; [done|].
           split; [constructor; [by apply Hblank | done]|].
           change ((c' :: t') ++ LF :: b) with (c' :: (t' ++ LF :: b)) in E.
           by rewrite E.
    + apply (IH t (c :: cur) b); [lia | by constructor | done | done].
Qed.

(** X14. A text node of white space only (or empty) between two paragraphs
    whose texts are single lines without surrounding white space gives
    exactly one empty line in the returned text, as a gap marker does. *)
Theorem blank_text_node_keeps_one_empty_line
    (n1 n2 : str) (c1 c2 : list str) (a t b : str) :
  trimmed a = true -> plain a -> trimmed b = true -> plain b ->
  Forall (fun c => is_space c = true) t ->
  has_class (u "empty-line") c1 = false ->
  has_class (u "empty-line") c2 = false ->
  clean_text_preserving_gaps
    [Tag n1 c1 [NavigableString a]; NavigableString t;
     Tag n2 c2 [NavigableString b]]
  = a ++ [LF; LF] ++ b.
Proof.
  intros Ha Hpa Hb Hpb Ht H1 H2.
  assert (Hna : a <> []) by by apply trimmed_nonempty.
  assert (Hnb : b <> []) by by apply trimmed_nonempty.
  unfold clean_text_preserving_gaps, set_spacers, get_text.
  cbn [List.map set_spacer]. rewrite H1, H2.
  cbn [List.map set_spacer List.flat_map all_strings app].
  change (join [LF] [a; t; b]) with (a ++ LF :: (t ++ LF :: b)).
  unfold normalize_text.
  assert (Hsplit : exists run,
            run <> [] /\ Forall (fun l => strip l = []) run
            /\ splitlines (a ++ LF :: (t ++ LF :: b)) = [a] ++ run ++ [b]).
  { destruct (splitlines_from_blank_run (length t) t [] b)
      as (run & Hne & Hrun & E); [lia | constructor | done | done |].
    exists run. split; [done|]. split; [done|].
    unfold splitlines. rewrite (splitlines_from_plain_app a [] _ Hpa).
    rewrite app_nil_r, splitlines_from_LF by by destruct t.
    rewrite rev_involutive, E. cbn [app]. do 2 f_equal.
    apply (splitlines_join [b]); [by repeat constructor|].
    cbn [last]. by intros [= ->]. }
  destruct Hsplit as (run & Hne & Hrun & ->).
  rewrite (clean_lines_blank_run [a] run [b] Hne Hrun).
  assert (Hclean : clean_lines ([a] ++ [] :: [b]) = [a; []; b]).
  { rewrite clean_lines_collapse. cbn [app collapse].
    rewrite (strip_id a Ha), (strip_id b Hb), strip_nil.
    destruct a; [done|]. by destruct b. }
  rewrite Hclean.
  change (a ++ [LF; LF] ++ b) with (join [LF] [a; []; b]).
  apply strip_join_id.
  - destruct a; [done|]. by destruct b.
  - apply List.Forall_cons; [by right|].
    apply List.Forall_cons; [by left|].
    apply List.Forall_cons; [by right | constructor].
  - cbn [last]. by intros [= ->].
Qed.

Lemma blank_text_node_keeps_one_empty_line_witness :
  trimmed (u "a b") = true /\ trimmed (u "c") = true
  /\ Forall (fun c => is_space c = true) [LF; 32; CR; LF; 9]
  /\ clean_text_preserving_gaps
       [Tag (u "p") [] [NavigableString (u "a b")];
        NavigableString [LF; 32; CR; LF; 9];
        Tag (u "p") [] [NavigableString (u "c")]]
     = u "a b" ++ [LF; LF] ++ u "c".
Proof.
  assert (Ha : trimmed (u "a b") = true) by reflexivity.
  assert (Hb : trimmed (u "c") = true) by reflexivity.
  assert (Ht : Forall (fun c => is_space c = true) [LF; 32; CR; LF; 9])
    by (repeat constructor).
  split; [exact Ha|]. split; [exact Hb|]. split; [exact Ht|].
  refine (blank_text_node_keeps_one_empty_line (u "p") (u "p") [] []
            (u "a b") _ (u "c") Ha _ Hb _ Ht _ _).
  - repeat constructor.
  - repeat constructor.
  - reflexivity.
  - reflexivity.
Defined.
